(** * An SPH particle system: state vector, derivative evaluation, adaptive
    stepping, boundary collisions, viscosity and surface-tension forces.

    Shallow embedding of [src/System.cpp], [src/forces/ViscosityForce.cpp]
    and [src/forces/SurfaceForce.cpp].

    - C++ [float] is IEEE-754 binary32; it is modelled by [spec_float] with
      the operations of the Standard Library's [SpecFloat] at precision 24
      and maximal exponent 128 (round to nearest, ties to even).
    - [Particle*] is an address into a heap of particle objects; the System
      and every Force hold addresses, so aliasing between the System's
      particle vector, the targets of a Force and the results of a neighbour
      query is the aliasing of the program.
    - Eigen's [VectorXf] is a list of floats; an access outside the vector
      (an Eigen assertion failure) and the dereference of an address with no
      particle behind it are the error [None].
    - Loop counters are [nat]: the wrap-around of [int i] is out of reach for
      any particle vector that fits in memory. *)

From Stdlib Require Import ZArith Floats.SpecFloat.
From stdpp Require Import base option list gmap.

(** ** binary32 arithmetic *)

Definition float : Type := spec_float.

Definition prec32 : Z := 24.
Definition emax32 : Z := 128.

Definition f32_add : float → float → float := SFadd prec32 emax32.
Definition f32_sub : float → float → float := SFsub prec32 emax32.
Definition f32_mul : float → float → float := SFmul prec32 emax32.
Definition f32_div : float → float → float := SFdiv prec32 emax32.
Definition f32_sqrt : float → float := SFsqrt prec32 emax32.
Definition f32_neg : float → float := SFopp.
Definition f32_lt : float → float → bool := SFltb.
Definition f32_le : float → float → bool := SFleb.

(** Conversion of an integer ([int] literal, [size_t] count) to [float]. *)
Definition f32_of_Z (n : Z) : float := binary_normalize prec32 emax32 n 0 false.

Arguments f32_add : simpl never.
Arguments f32_sub : simpl never.
Arguments f32_mul : simpl never.
Arguments f32_div : simpl never.
Arguments f32_sqrt : simpl never.
Arguments f32_neg : simpl never.
Arguments f32_lt : simpl never.
Arguments f32_le : simpl never.
Arguments f32_of_Z : simpl never.

Definition is_nan (x : float) : bool :=
  match x with S754_nan => true | _ => false end.

Definition is_zero (x : float) : bool :=
  match x with S754_zero _ => true | _ => false end.

(** The literals of the sources, as binary32 values [m * 2^e]. *)
Definition f32_zero : float := S754_zero false.
Definition lit_0_2f : float := S754_finite false 13421773 (-26).
Definition lit_2_0f : float := S754_finite false 8388608 (-22).
Definition lit_0_1f : float := S754_finite false 13421773 (-27).
Definition lit_0_001f : float := S754_finite false 8589935 (-33).
Definition lit_0_5f : float := S754_finite false 8388608 (-24).
Definition lit_0_01f : float := S754_finite false 10737418 (-30).
Definition lit_72_75f : float := S754_finite false 9535488 (-17).
Definition lit_100f : float := S754_finite false 13107200 (-17).

(** ** Eigen vectors *)

Record Vector3f := Vec3 { c0 : float; c1 : float; c2 : float }.

Definition v3_zero : Vector3f := Vec3 f32_zero f32_zero f32_zero.
Definition v3_add (a b : Vector3f) : Vector3f :=
  Vec3 (f32_add (c0 a) (c0 b)) (f32_add (c1 a) (c1 b)) (f32_add (c2 a) (c2 b)).
Definition v3_sub (a b : Vector3f) : Vector3f :=
  Vec3 (f32_sub (c0 a) (c0 b)) (f32_sub (c1 a) (c1 b)) (f32_sub (c2 a) (c2 b)).
(** [k * v] and [v * k] *)
Definition v3_scale (k : float) (v : Vector3f) : Vector3f :=
  Vec3 (f32_mul k (c0 v)) (f32_mul k (c1 v)) (f32_mul k (c2 v)).
Definition v3_times (v : Vector3f) (k : float) : Vector3f :=
  Vec3 (f32_mul (c0 v) k) (f32_mul (c1 v) k) (f32_mul (c2 v) k).
(** [v / k] *)
Definition v3_div (v : Vector3f) (k : float) : Vector3f :=
  Vec3 (f32_div (c0 v) k) (f32_div (c1 v) k) (f32_div (c2 v) k).

Abbreviation VectorXf := (list float).

(** [VectorXf r(n)]: Eigen leaves the coefficients uninitialised; every use in
    the sources overwrites all of them before the vector is read. *)
Definition vec_new (n : nat) : VectorXf := replicate n f32_zero.

(** [v[k]] as an rvalue. *)
Definition vec_get (v : VectorXf) (k : nat) : option float := v !! k.

(** [v[k] = x]. *)
Definition vec_set (v : VectorXf) (k : nat) (x : float) : option VectorXf :=
  if decide (k < length v) then Some (<[k:=x]> v) else None.

(** [a - b] on dynamic vectors: Eigen asserts equal sizes. *)
Definition vec_sub (a b : VectorXf) : option VectorXf :=
  if decide (length a = length b) then Some (zip_with f32_sub a b) else None.

(** ** Loops *)

(** [for (x : l) body], threading the state and stopping at the first fault. *)
Fixpoint for_each {A S : Type} (body : A → S → option S) (l : list A) (s : S)
  : option S :=
  match l with
  | [] => Some s
  | x :: l' => s' ← body x s; for_each body l' s'
  end.

(** [for (int i = 0; i < n; i++) body]. *)
Definition for_range {S : Type} (n : nat) (body : nat → S → option S) (s : S)
  : option S :=
  for_each body (seq 0 n) s.

(** ** Particles, forces and the System *)

Record Particle := mkParticle {
  position : Vector3f;
  velocity : Vector3f;
  force : Vector3f;
  mass : float;
  density : float;
  pressure : float;
  movable : bool
}.

Abbreviation addr := nat (only parsing).

(** The Force hierarchy.  The two variants whose [apply] is in the sources
    carry their target vector; any other subclass is an [OtherForce], whose
    [apply] is a parameter of the development. *)
Inductive Force :=
  | ViscosityForce (targets : list addr)
  | SurfaceForce (targets : list addr)
  | OtherForce (tag : nat).

Record System := mkSystem {
  heap : gmap addr Particle;
  particles : list addr;
  forces : list Force;
  time : float;
  dt : float
}.

Definition set_heap (s : System) (h : gmap addr Particle) : System :=
  mkSystem h (particles s) (forces s) (time s) (dt s).
Definition set_time (s : System) (t : float) : System :=
  mkSystem (heap s) (particles s) (forces s) t (dt s).
Definition set_dt (s : System) (d : float) : System :=
  mkSystem (heap s) (particles s) (forces s) (time s) d.

(** [*a] and [*a = p]. *)
Definition load (s : System) (a : addr) : option Particle := heap s !! a.
Definition store (s : System) (a : addr) (p : Particle) : System :=
  set_heap s (<[a:=p]> (heap s)).

(** [particles[i]] followed by the dereference. *)
Definition particle_at (s : System) (i : nat) : option (addr * Particle) :=
  a ← particles s !! i; p ← load s a; Some (a, p).

Definition set_position (p : Particle) (v : Vector3f) : Particle :=
  mkParticle v (velocity p) (force p) (mass p) (density p) (pressure p) (movable p).
Definition set_velocity (p : Particle) (v : Vector3f) : Particle :=
  mkParticle (position p) v (force p) (mass p) (density p) (pressure p) (movable p).
Definition set_force (p : Particle) (v : Vector3f) : Particle :=
  mkParticle (position p) (velocity p) v (mass p) (density p) (pressure p) (movable p).
Definition set_density (p : Particle) (d : float) : Particle :=
  mkParticle (position p) (velocity p) (force p) (mass p) d (pressure p) (movable p).
Definition set_pressure (p : Particle) (d : float) : Particle :=
  mkParticle (position p) (velocity p) (force p) (mass p) (density p) d (movable p).

(** ** The state vector: [System::getDim], [getState], [setState] *)

Definition getDim (s : System) : nat := length (particles s) * 3 * 2.

Definition getState_body (s : System) (i : nat) (r : VectorXf) : option VectorXf :=
  '(_, p) ← particle_at s i;
  r ← vec_set r (i * 6 + 0) (c0 (position p));
  r ← vec_set r (i * 6 + 1) (c1 (position p));
  r ← vec_set r (i * 6 + 2) (c2 (position p));
  r ← vec_set r (i * 6 + 3) (c0 (velocity p));
  r ← vec_set r (i * 6 + 4) (c1 (velocity p));
  vec_set r (i * 6 + 5) (c2 (velocity p)).

Definition getState (s : System) : option VectorXf :=
  for_range (length (particles s)) (getState_body s) (vec_new (getDim s)).

Definition getTime (s : System) : float := time s.

(** One iteration of the loop of [setState(src, t)].  [src] is a by-value
    copy, so the six reads are independent of the six writes; the writes to
    [particles[i]->position] and [->velocity] are grouped into one store. *)
Definition setState_body (src : VectorXf) (i : nat) (s : System) : option System :=
  '(a, p) ← particle_at s i;
  if movable p then
    x0 ← vec_get src (i * 6 + 0);
    x1 ← vec_get src (i * 6 + 1);
    x2 ← vec_get src (i * 6 + 2);
    x3 ← vec_get src (i * 6 + 3);
    x4 ← vec_get src (i * 6 + 4);
    x5 ← vec_get src (i * 6 + 5);
    Some (store s a (set_velocity (set_position p (Vec3 x0 x1 x2)) (Vec3 x3 x4 x5)))
  else Some s.

(** [setState(src, t)] *)
Definition setState2 (s : System) (src : VectorXf) (t : float) : option System :=
  s' ← for_range (length (particles s)) (setState_body src) s;
  Some (set_time s' t).

(** [setState(src)] *)
Definition setState (s : System) (src : VectorXf) : option System :=
  setState2 s src (getTime s).

(** ** External collaborators

    The fields, the neighbour grid, the smoothing kernels, Eigen's norms, the
    C library's [pow] and the Force subclasses outside the sources are not
    part of the modelled files.  They are the members of one interface; the
    fields and the grid hold a back-reference to the System, so they read the
    whole current state. *)
Class Collaborators := {
  (** [densityField->eval(p)] *)
  densityField_eval : System → addr → float;
  (** [colorField->dEval(pos)] and [colorField->ddEval(pos)] *)
  colorField_dEval : System → Vector3f → Vector3f;
  colorField_ddEval : System → Vector3f → float;
  (** [grid.query(pos)] *)
  grid_query : System → Vector3f → list addr;
  (** [Viscosity::ddW(r)] *)
  Viscosity_ddW : Vector3f → float;
  (** [Vector3f::norm()] and [VectorXf::norm()] *)
  norm3 : Vector3f → float;
  vec_norm : VectorXf → float;
  (** [pow(x, y)] *)
  powf : float → float → float;
  (** [apply] of a Force subclass that is not in the sources *)
  other_apply : nat → System → option System
}.

(** The pluggable integration scheme: [solver->simulateStep(this, h)]. *)
Class Solver := { simulateStep : System → float → option System }.

Section Forces.
Context {env : Collaborators}.

(** *** [ViscosityForce::apply] *)

(** The right-hand side of the assignment in the neighbour loop. *)
Definition viscosity_term (pi pj : Particle) : Vector3f :=
  v3_times
    (v3_div (v3_scale (mass pj) (v3_sub (velocity pj) (velocity pi))) (density pj))
    (Viscosity_ddW (v3_sub (position pi) (position pj))).

(** The neighbour loop: [viscosityForce = ...] for every [pj]. *)
Definition viscosity_neighbours (s : System) (ai : addr) (nbrs : list addr)
  (viscosityForce : Vector3f) : option Vector3f :=
  for_each (λ aj (_ : Vector3f),
              pi ← load s ai; pj ← load s aj; Some (viscosity_term pi pj))
           nbrs viscosityForce.

Definition viscosity_body (ai : addr) (s : System) : option System :=
  let u := lit_100f in
  pi ← load s ai;
  viscosityForce ← viscosity_neighbours s ai (grid_query s (position pi)) v3_zero;
  Some (store s ai (set_force pi (v3_add (force pi) (v3_scale u viscosityForce)))).

Definition ViscosityForce_apply (targets : list addr) (s : System) : option System :=
  for_each viscosity_body targets s.

(** *** [SurfaceForce::apply] *)

Definition surface_body (ai : addr) (s : System) : option System :=
  let sigma := lit_72_75f in
  let certainThreshold := lit_0_01f in
  pi ← load s ai;
  let n := colorField_dEval s (position pi) in
  if f32_lt certainThreshold (norm3 n) then
    Some (store s ai
            (set_force pi
               (v3_add (force pi)
                  (v3_div
                     (v3_scale (f32_mul (f32_neg sigma) (colorField_ddEval s (position pi))) n)
                     (norm3 n)))))
  else Some s.

Definition SurfaceForce_apply (targets : list addr) (s : System) : option System :=
  for_each surface_body targets s.

(** The virtual call [f->apply(this)]. *)
Definition Force_apply (f : Force) (s : System) : option System :=
  match f with
  | ViscosityForce targets => ViscosityForce_apply targets s
  | SurfaceForce targets => SurfaceForce_apply targets s
  | OtherForce tag => other_apply tag s
  end.

(** ** [System::derivEval] *)

Definition clearForces (s : System) : option System :=
  for_each (λ a s, p ← load s a; Some (store s a (set_force p v3_zero)))
           (particles s) s.

(** First loop of [computeForces]; the state is the System together with the
    local [restDensity]. *)
Definition density_body (a : addr) (st : System * float) : option (System * float) :=
  let '(s, restDensity) := st in
  p ← load s a;
  let d := densityField_eval s a in
  Some (store s a (set_density p d), f32_add restDensity d).

(** Second loop of [computeForces]. *)
Definition pressure_body (k restDensity : float) (a : addr) (s : System) : option System :=
  p ← load s a;
  Some (store s a (set_pressure p (f32_mul k (f32_sub (density p) restDensity)))).

(** [restDensity /= particles.size()]: the count is converted to [float]. *)
Definition size_to_float (n : nat) : float := f32_of_Z (Z.of_nat n).

(** [computeForces] up to and including the pressure loop; the second
    component is [restDensity] after the division. *)
Definition computeDensityPressure (s : System) : option (System * float) :=
  '(s, restDensity) ← for_each density_body (particles s) (s, f32_of_Z 0);
  let k := lit_0_1f in
  let restDensity := f32_div restDensity (size_to_float (length (particles s))) in
  s ← for_each (pressure_body k restDensity) (particles s) s;
  Some (s, restDensity).

(** Third loop of [computeForces]. *)
Definition applyForces (s : System) : option System :=
  for_each Force_apply (forces s) s.

Definition computeForces (s : System) : option System :=
  '(s, _) ← computeDensityPressure s;
  applyForces s.

Definition computeDerivative_body (s : System) (i : nat) (dst : VectorXf)
  : option VectorXf :=
  '(_, p) ← particle_at s i;
  dst ← vec_set dst (i * 6 + 0) (c0 (velocity p));
  dst ← vec_set dst (i * 6 + 1) (c1 (velocity p));
  dst ← vec_set dst (i * 6 + 2) (c2 (velocity p));
  dst ← vec_set dst (i * 6 + 3) (f32_div (c0 (force p)) (density p));
  dst ← vec_set dst (i * 6 + 4) (f32_div (c1 (force p)) (density p));
  vec_set dst (i * 6 + 5) (f32_div (c2 (force p)) (density p)).

Definition computeDerivative (s : System) : option VectorXf :=
  for_range (length (particles s)) (computeDerivative_body s) (vec_new (getDim s)).

(** [derivEval] mutates the particles and returns the derivative vector. *)
Definition derivEval (s : System) : option (System * VectorXf) :=
  s ← clearForces s;
  s ← computeForces s;
  dst ← computeDerivative s;
  Some (s, dst).

End Forces.

(** ** [System::step] *)

Section Step.
Context {env : Collaborators} {solver : Solver}.

(** The local error [err] of the adaptive branch, from the two trial states. *)
Definition local_error (xa xb : VectorXf) : option float :=
  d ← vec_sub xa xb; Some (vec_norm d).

(** [if (err > 0) dt *= pow(0.001f / err, .5f);] *)
Definition rescale_dt (err : float) (s : System) : System :=
  if f32_lt (f32_of_Z 0) err
  then set_dt s (f32_mul (dt s) (powf (f32_div lit_0_001f err) lit_0_5f))
  else s.

(** The trial part of the adaptive branch: everything before the rescaling.
    Returns the System after the two half steps with [before], [xa], [xb]. *)
Definition step_trials (s : System)
  : option (System * VectorXf * VectorXf * VectorXf) :=
  before ← getState s;
  s ← simulateStep s (dt s);
  xa ← getState s;
  s ← setState s before;
  s ← simulateStep s (f32_div (dt s) (f32_of_Z 2));
  s ← simulateStep s (f32_div (dt s) (f32_of_Z 2));
  xb ← getState s;
  Some (s, before, xa, xb).

(** The body of [if (adaptive) { ... }]: the System right before the final
    [solver->simulateStep(this, dt)]. *)
Definition step_adaptive_prefix (s : System) : option System :=
  '(s, before, xa, xb) ← step_trials s;
  err ← local_error xa xb;
  setState (rescale_dt err s) before.

Definition step (adaptive : bool) (s : System) : option System :=
  s ← (if adaptive then step_adaptive_prefix s else Some s);
  simulateStep s (dt s).

End Step.

(** ** [System::checkCollisions] *)

(** //collision from x side *)
Definition collide_x_low (i : nat) (newState : VectorXf) : option VectorXf :=
  x ← vec_get newState (i * 6);
  if f32_lt x (f32_neg lit_0_2f) then
    newState ← vec_set newState (i * 6) (f32_neg lit_0_2f);
    v ← vec_get newState (i * 6 + 3);
    if f32_lt v (f32_of_Z 0) then
      v ← vec_get newState (i * 6 + 3);
      vec_set newState (i * 6 + 3) (f32_neg v)
    else Some newState
  else Some newState.

Definition collide_x_high (i : nat) (newState : VectorXf) : option VectorXf :=
  x ← vec_get newState (i * 6);
  if f32_lt lit_0_2f x then
    newState ← vec_set newState (i * 6) lit_0_2f;
    v ← vec_get newState (i * 6 + 3);
    if f32_lt (f32_of_Z 0) v then
      v ← vec_get newState (i * 6 + 3);
      vec_set newState (i * 6 + 3) (f32_neg v)
    else Some newState
  else Some newState.

(** //collision from z side: the new z velocity is read from slot [i*6+3] *)
Definition collide_z_low (i : nat) (newState : VectorXf) : option VectorXf :=
  z ← vec_get newState (i * 6 + 2);
  if f32_lt z (f32_neg lit_0_2f) then
    newState ← vec_set newState (i * 6 + 2) (f32_neg lit_0_2f);
    v ← vec_get newState (i * 6 + 5);
    if f32_lt v (f32_of_Z 0) then
      v ← vec_get newState (i * 6 + 3);
      vec_set newState (i * 6 + 5) (f32_neg v)
    else Some newState
  else Some newState.

Definition collide_z_high (i : nat) (newState : VectorXf) : option VectorXf :=
  z ← vec_get newState (i * 6 + 2);
  if f32_lt lit_0_2f z then
    newState ← vec_set newState (i * 6 + 2) lit_0_2f;
    v ← vec_get newState (i * 6 + 5);
    if f32_lt (f32_of_Z 0) v then
      v ← vec_get newState (i * 6 + 3);
      vec_set newState (i * 6 + 5) (f32_neg v)
    else Some newState
  else Some newState.

(** //Check collision with y side *)
Definition collide_y_low (i : nat) (newState : VectorXf) : option VectorXf :=
  y ← vec_get newState (i * 6 + 1);
  if f32_lt y (f32_neg lit_2_0f) then
    newState ← vec_set newState (i * 6 + 1) (f32_neg lit_2_0f);
    v ← vec_get newState (i * 6 + 4);
    if f32_lt v (f32_of_Z 0) then
      v ← vec_get newState (i * 6 + 4);
      vec_set newState (i * 6 + 4) (f32_neg v)
    else Some newState
  else Some newState.

(** [checkCollisions(newState)] for a System of [n] particles: five passes
    over all particles, in this order. *)
Definition checkCollisions (n : nat) (newState : VectorXf) : option VectorXf :=
  newState ← for_range n collide_x_low newState;
  newState ← for_range n collide_x_high newState;
  newState ← for_range n collide_z_low newState;
  newState ← for_range n collide_z_high newState;
  for_range n collide_y_low newState.

(** ** Vocabulary of the statements *)

(** Every address in the System's particle vector has a particle behind it. *)
Definition valid_particles (s : System) : Prop :=
  Forall (λ a, is_Some (heap s !! a)) (particles s).

(** The six slots of one particle in a state or derivative vector. *)
Record Block := mkBlock {
  b0 : float; b1 : float; b2 : float; b3 : float; b4 : float; b5 : float
}.

Definition read_block (v : VectorXf) (i : nat) : option Block :=
  x0 ← v !! (i * 6 + 0);
  x1 ← v !! (i * 6 + 1);
  x2 ← v !! (i * 6 + 2);
  x3 ← v !! (i * 6 + 3);
  x4 ← v !! (i * 6 + 4);
  x5 ← v !! (i * 6 + 5);
  Some (mkBlock x0 x1 x2 x3 x4 x5).

(** What [getState] stores for a particle, and what [computeDerivative] does. *)
Definition state_block (p : Particle) : Block :=
  mkBlock (c0 (position p)) (c1 (position p)) (c2 (position p))
          (c0 (velocity p)) (c1 (velocity p)) (c2 (velocity p)).

Definition deriv_block (p : Particle) : Block :=
  mkBlock (c0 (velocity p)) (c1 (velocity p)) (c2 (velocity p))
          (f32_div (c0 (force p)) (density p))
          (f32_div (c1 (force p)) (density p))
          (f32_div (c2 (force p)) (density p)).

(** The slots outside block [i] are those of [v]. *)
Definition same_outside (i : nat) (v v' : VectorXf) : Prop :=
  ∀ k, k < i * 6 ∨ i * 6 + 6 ≤ k → v' !! k = v !! k.

(** The six assignments [dst[i*6+0] = ...; ...; dst[i*6+5] = ...]. *)
Definition write_block (i : nat) (b : Block) (r : VectorXf) : option VectorXf :=
  r ← vec_set r (i * 6 + 0) (b0 b);
  r ← vec_set r (i * 6 + 1) (b1 b);
  r ← vec_set r (i * 6 + 2) (b2 b);
  r ← vec_set r (i * 6 + 3) (b3 b);
  r ← vec_set r (i * 6 + 4) (b4 b);
  vec_set r (i * 6 + 5) (b5 b).

(** The particle after the six assignments of [setState] from a block. *)
Definition write_state (p : Particle) (b : Block) : Particle :=
  set_velocity (set_position p (Vec3 (b0 b) (b1 b) (b2 b))) (Vec3 (b3 b) (b4 b) (b5 b)).

(** [s'] has the particle vector of [s], and behind every address a particle
    with the same movable flag that is the particle of [s] if it is immovable. *)
Definition immovable_kept (s s' : System) : Prop :=
  particles s' = particles s ∧
  ∀ a p, heap s !! a = Some p →
    ∃ p', heap s' !! a = Some p' ∧ movable p' = movable p ∧
          (movable p = false → p' = p).

(** The particle behind [a] after [setState] has written, for every index of
    [a] in [l], the block [B a]. *)
Definition written (B : addr → Block) (l : list addr) (a : addr) (p : Particle)
  : Particle :=
  if movable p && bool_decide (a ∈ l) then write_state p (B a) else p.

(** The block that [getState] produces for an address. *)
Definition snapshot_block (s : System) (a : addr) : Block :=
  match heap s !! a with
  | Some p => state_block p
  | None => mkBlock f32_zero f32_zero f32_zero f32_zero f32_zero f32_zero
  end.

(** *** Collisions, per particle *)

(** The five passes of [checkCollisions] as functions on the block of one
    particle; [collide_block] is their composition in the order of the code.
    The loops are proved to compute it block by block. *)
Definition clamp_x_low (b : Block) : Block :=
  if f32_lt (b0 b) (f32_neg lit_0_2f) then
    mkBlock (f32_neg lit_0_2f) (b1 b) (b2 b)
            (if f32_lt (b3 b) (f32_of_Z 0) then f32_neg (b3 b) else b3 b) (b4 b) (b5 b)
  else b.

Definition clamp_x_high (b : Block) : Block :=
  if f32_lt lit_0_2f (b0 b) then
    mkBlock lit_0_2f (b1 b) (b2 b)
            (if f32_lt (f32_of_Z 0) (b3 b) then f32_neg (b3 b) else b3 b) (b4 b) (b5 b)
  else b.

Definition clamp_z_low (b : Block) : Block :=
  if f32_lt (b2 b) (f32_neg lit_0_2f) then
    mkBlock (b0 b) (b1 b) (f32_neg lit_0_2f) (b3 b) (b4 b)
            (if f32_lt (b5 b) (f32_of_Z 0) then f32_neg (b3 b) else b5 b)
  else b.

Definition clamp_z_high (b : Block) : Block :=
  if f32_lt lit_0_2f (b2 b) then
    mkBlock (b0 b) (b1 b) lit_0_2f (b3 b) (b4 b)
            (if f32_lt (f32_of_Z 0) (b5 b) then f32_neg (b3 b) else b5 b)
  else b.

Definition clamp_y_low (b : Block) : Block :=
  if f32_lt (b1 b) (f32_neg lit_2_0f) then
    mkBlock (b0 b) (f32_neg lit_2_0f) (b2 b) (b3 b)
            (if f32_lt (b4 b) (f32_of_Z 0) then f32_neg (b4 b) else b4 b) (b5 b)
  else b.

Definition collide_block (b : Block) : Block :=
  clamp_y_low (clamp_z_high (clamp_z_low (clamp_x_high (clamp_x_low b)))).

(** The container, with the comparisons of binary32. *)
Definition in_side_range (x : float) : bool :=
  f32_le (f32_neg lit_0_2f) x && f32_le x lit_0_2f.
Definition in_floor_range (y : float) : bool :=
  f32_le (f32_neg lit_2_0f) y.

(** No position slot of the block is a NaN. *)
Definition position_ordered (b : Block) : Prop :=
  is_nan (b0 b) = false ∧ is_nan (b1 b) = false ∧ is_nan (b2 b) = false.

(** Clamping of one coordinate against the side walls and against the floor. *)
Definition clamp_side (x : float) : float :=
  if f32_lt x (f32_neg lit_0_2f) then f32_neg lit_0_2f
  else if f32_lt lit_0_2f x then lit_0_2f else x.

Definition clamp_floor (y : float) : float :=
  if f32_lt y (f32_neg lit_2_0f) then f32_neg lit_2_0f else y.

(** *** Frames *)

(** [s'] differs from [s] at most in particle fields that [proj] forgets. *)
Definition agree_on {A : Type} (proj : Particle → A) (s s' : System) : Prop :=
  particles s' = particles s ∧ forces s' = forces s ∧
  time s' = time s ∧ dt s' = dt s ∧
  ∀ a, proj <$> heap s' !! a = proj <$> heap s !! a.

Definition erase_force (p : Particle) : Particle := set_force p v3_zero.
Definition erase_force_density (p : Particle) : Particle :=
  set_density (set_force p v3_zero) f32_zero.
Definition kinematics (p : Particle) : Vector3f * Vector3f * bool :=
  (position p, velocity p, movable p).

(** A collaborator that does not read the force accumulators (and the
    densities) of the particles. *)
Definition force_blind {A B : Type} (f : System → A → B) : Prop :=
  ∀ s s' x, agree_on erase_force s s' → f s' x = f s x.
Definition force_density_blind {A B : Type} (f : System → A → B) : Prop :=
  ∀ s s' x, agree_on erase_force_density s s' → f s' x = f s x.

(** Number of times [a] is listed in [l]. *)
Definition occurrences (a : addr) (l : list addr) : nat :=
  length (filter (λ x, x = a) l).

Section ForceVocabulary.
Context {env : Collaborators}.

(** The vector [-sigma * ddEval(position) * n / |n|] of [SurfaceForce::apply],
    with the gradient [n] of the colour field at the particle. *)
Definition surface_normal (s : System) (p : Particle) : Vector3f :=
  colorField_dEval s (position p).

Definition surface_term (s : System) (p : Particle) : Vector3f :=
  v3_div
    (v3_scale (f32_mul (f32_neg lit_72_75f) (colorField_ddEval s (position p)))
              (surface_normal s p))
    (norm3 (surface_normal s p)).

(** The particle behind [a] after [SurfaceForce::apply] on [targets]. *)
Definition surface_result (s : System) (targets : list addr) (a : addr)
  (p : Particle) : Particle :=
  if f32_lt lit_0_01f (norm3 (surface_normal s p))
  then set_force p (Nat.iter (occurrences a targets)
                             (λ f, v3_add f (surface_term s p)) (force p))
  else p.

End ForceVocabulary.

Section DerivVocabulary.
Context {env : Collaborators}.

(** [restDensity] of [computeForces]: the densities summed in the order of
    the particle vector, starting from [0], divided by the particle count. *)
Definition mean_density (s : System) : float :=
  f32_div (fold_left f32_add (densityField_eval s <$> particles s) (f32_of_Z 0))
          (size_to_float (length (particles s))).

(** A particle of the System when the Force loop of [computeForces] starts:
    force cleared, density from the Density field, pressure from the
    density and the mean density. *)
Definition prepared (s : System) (a : addr) (p : Particle) : Particle :=
  mkParticle (position p) (velocity p) v3_zero (mass p)
             (densityField_eval s a)
             (f32_mul lit_0_1f (f32_sub (densityField_eval s a) (mean_density s)))
             (movable p).

(** The target of [ViscosityForce::apply] after its neighbour loop: the term
    of the last neighbour, or the initial zero vector without neighbours. *)
Definition viscosity_last (s : System) (pi : Particle) (nbrs : list addr)
  (v0 : Vector3f) : Vector3f :=
  match last nbrs with
  | Some aj => match heap s !! aj with
               | Some pj => viscosity_term pi pj
               | None => v0
               end
  | None => v0
  end.

End DerivVocabulary.

(** *** The Solver contract *)

(** [s'] has the particle vector of [s], and every particle of [s] is still
    there with its movable flag and, if immovable, its position and velocity. *)
Definition anchored (s s' : System) : Prop :=
  particles s' = particles s ∧
  ∀ a p, heap s !! a = Some p →
    ∃ p', heap s' !! a = Some p' ∧ movable p' = movable p ∧
          (movable p = false → position p' = position p ∧ velocity p' = velocity p).

Section SolverVocabulary.
Context {env : Collaborators}.

(** What a Solver may do to the System: read it, call [derivEval], and write
    state vectors back with [setState]; in any number and order. *)
Inductive solver_trace : System → System → Prop :=
  | trace_done s : solver_trace s s
  | trace_setState s src t s1 s2 :
      setState2 s src t = Some s1 → solver_trace s1 s2 → solver_trace s s2
  | trace_derivEval s dst s1 s2 :
      derivEval s = Some (s1, dst) → solver_trace s1 s2 → solver_trace s s2.

Definition solver_contract {solver : Solver} : Prop :=
  ∀ s h s', simulateStep s h = Some s' → solver_trace s s'.

(** The frame condition on the Force subclasses outside the sources: an
    [apply] that returns has left the particle vector, the force list, the
    clock and [dt] of the System unchanged, has created and destroyed no
    particle object, and has left the position, the velocity and the movable
    flag of every particle unchanged.  What it may write is what [kinematics]
    forgets: force accumulators, densities, pressures and masses. *)
Definition other_forces_keep_kinematics : Prop :=
  ∀ tag s s', other_apply tag s = Some s' → agree_on kinematics s s'.

End SolverVocabulary.

(** ** A concrete scene

    Instances of the collaborators and of the Solver on which the model is
    run: a colour field whose gradient at a point is the point itself, a
    density field that returns the mass of the particle, a neighbour grid
    that returns every particle of the System, Euclidean norms computed with
    binary32 operations, [pow(x, .5f)] as the square root, and one outside
    Force, a unit gravity pulling every particle of the System down. *)

Definition f32_one : float := f32_of_Z 1.
Definition f32_quarter : float := f32_div (f32_of_Z 1) (f32_of_Z 4).

Definition euclid_norm3 (v : Vector3f) : float :=
  f32_sqrt (f32_add (f32_add (f32_mul (c0 v) (c0 v)) (f32_mul (c1 v) (c1 v)))
                    (f32_mul (c2 v) (c2 v))).

Definition euclid_norm (v : VectorXf) : float :=
  f32_sqrt (fold_left (λ acc x, f32_add acc (f32_mul x x)) v f32_zero).

Definition gravity_apply (s : System) : option System :=
  for_each
    (λ a s, p ← load s a;
            Some (store s a
                    (set_force p
                       (v3_add (force p) (Vec3 f32_zero (f32_neg f32_one) f32_zero)))))
    (particles s) s.

Definition scene : Collaborators := {|
  densityField_eval := λ s a, from_option mass f32_zero (heap s !! a);
  colorField_dEval := λ _ pos, pos;
  colorField_ddEval := λ _ _, f32_one;
  grid_query := λ s _, particles s;
  Viscosity_ddW := λ _, f32_one;
  norm3 := euclid_norm3;
  vec_norm := euclid_norm;
  powf := λ x _, f32_sqrt x;
  other_apply := λ _ s, gravity_apply s
|}.

(** The solvers are outside the sources.  This is a sample instance of the
    Solver interface, an explicit Euler scheme: it reads the state, evaluates
    the derivative and writes [x + h * dx] back together with the advanced
    clock, through the two-argument [setState]. *)
Definition euler_step (C : Collaborators) (s : System) (h : float) : option System :=
  x ← getState s;
  '(s, dx) ← derivEval s;
  setState2 s (zip_with (λ xi di, f32_add xi (f32_mul h di)) x dx)
            (f32_add (getTime s) h).

Definition euler (C : Collaborators) : Solver := {| simulateStep := euler_step C |}.

Definition particle_at_rest (pos vel : Vector3f) (mov : bool) : Particle :=
  mkParticle pos vel v3_zero f32_one f32_one f32_zero mov.

Definition v3_of_Z (x y z : Z) : Vector3f := Vec3 (f32_of_Z x) (f32_of_Z y) (f32_of_Z z).

(** Three particles in a row with velocities 0, 1 and 2 along X; the first
    is the only target of a viscosity force. *)
Definition shear_heap : gmap nat Particle :=
  {[ 0 := particle_at_rest (v3_of_Z 0 0 0) (v3_of_Z 0 0 0) true;
     1 := particle_at_rest (v3_of_Z 1 0 0) (v3_of_Z 1 0 0) true;
     2 := particle_at_rest (v3_of_Z 2 0 0) (v3_of_Z 2 0 0) false ]}.

Definition shear_system : System :=
  mkSystem shear_heap [0; 1; 2] [ViscosityForce [0]] f32_zero f32_quarter.

(** The same particles under gravity and surface tension. *)
Definition falling_system : System :=
  mkSystem shear_heap [0; 1; 2] [OtherForce 0; SurfaceForce [1; 2]]
           f32_zero f32_quarter.

(** The same particles with no force at all. *)
Definition drifting_system : System :=
  mkSystem shear_heap [0; 1; 2] [] f32_zero f32_quarter.

(** A System without particles whose surface-tension force targets a
    particle that was never added to the System. *)
Definition empty_system : System :=
  mkSystem {[ 7 := particle_at_rest (v3_of_Z 1 0 0) (v3_of_Z 0 0 0) true ]}
           [] [SurfaceForce [7]] f32_zero f32_quarter.

(** State vectors of one particle: leaving through the low Z wall while
    moving along X, with a NaN abscissa, and below the floor. *)
Definition z_exit_state : VectorXf :=
  [f32_zero; f32_zero; f32_neg f32_quarter; lit_0_5f; f32_zero; f32_neg f32_one].

Definition nan_state : VectorXf :=
  [S754_nan; f32_zero; f32_zero; f32_zero; f32_zero; f32_zero].

Definition corner_state : VectorXf :=
  [f32_neg f32_quarter; f32_neg (f32_of_Z 3); lit_0_1f;
   f32_neg f32_one; f32_neg f32_one; f32_zero].

(** ** Registration and teardown: [addParticle], [free] *)

(** [Force::addAsTarget(p)] is declared with the Force base class, outside
    the sources; it is the one member of this interface. *)
Class ForceTargets := { addAsTarget : Force → nat → Force }.

(** [particles.push_back(p)], then [f->addAsTarget(p)] for every force.  The
    particle object itself already lives on the heap. *)
Definition addParticle {ft : ForceTargets} (s : System) (p : addr) : System :=
  mkSystem (heap s) (particles s ++ [p]) ((λ f, addAsTarget f p) <$> forces s)
           (time s) (dt s).

(** [particles.clear(); forces.clear();]: the vectors of pointers are
    emptied, the objects they pointed to are not destroyed. *)
Definition free (s : System) : System :=
  mkSystem (heap s) [] [] (time s) (dt s).

(** What [setState] never writes. *)
Definition dynamics (p : Particle) : Vector3f * float * float * float * bool :=
  (force p, mass p, density p, pressure p, movable p).

(** The block of [src] at the first index at which [a] is listed in [l]. *)
Definition block_of (src : VectorXf) (l : list addr) (a : addr) : Block :=
  default (mkBlock f32_zero f32_zero f32_zero f32_zero f32_zero f32_zero)
          ('(i, _) ← list_find (λ x, x = a) l; read_block src i).

(** The slots of a block, in vector order. *)
Definition block_slots (b : Block) : list float :=
  [b0 b; b1 b; b2 b; b3 b; b4 b; b5 b].

(** A registration that only appends targets, as a sample instance. *)
Definition append_target : ForceTargets := {|
  addAsTarget := λ f p,
    match f with
    | ViscosityForce targets => ViscosityForce (targets ++ [p])
    | SurfaceForce targets => SurfaceForce (targets ++ [p])
    | OtherForce tag => OtherForce tag
    end
|}.

(** * Properties *)

(** ** Literals *)

(** Each literal is the correctly rounded quotient of two integers. *)
Lemma literals_rounded :
  f32_div (f32_of_Z 2) (f32_of_Z 10) = lit_0_2f ∧
  f32_of_Z 2 = lit_2_0f ∧
  f32_div (f32_of_Z 1) (f32_of_Z 10) = lit_0_1f ∧
  f32_div (f32_of_Z 1) (f32_of_Z 1000) = lit_0_001f ∧
  f32_div (f32_of_Z 1) (f32_of_Z 2) = lit_0_5f ∧
  f32_div (f32_of_Z 1) (f32_of_Z 100) = lit_0_01f ∧
  f32_div (f32_of_Z 291) (f32_of_Z 4) = lit_72_75f ∧
  f32_of_Z 100 = lit_100f ∧
  f32_of_Z 0 = f32_zero.
Proof. by vm_compute. Qed.

(** ** Loops *)

Lemma for_each_app {A S} (body : A → S → option S) l1 l2 s :
  for_each body (l1 ++ l2) s = s' ← for_each body l1 s; for_each body l2 s'.
Proof.
  revert s. induction l1 as [|x l1 IH]; intros s; simpl; [done|].
  destruct (body x s); simpl; auto.
Qed.

Lemma for_range_S {S} n (body : nat → S → option S) s :
  for_range (Datatypes.S n) body s = s' ← for_range n body s; body n s'.
Proof.
  unfold for_range. rewrite seq_S, for_each_app. simpl.
  destruct (for_each body (seq 0 n) s); simpl; [|done].
  by destruct (body n _).
Qed.

(** Invariant rule with termination: the loop returns and the invariant holds. *)
Lemma for_each_inv {A S} (P : S → Prop) (body : A → S → option S) l s :
  P s →
  (∀ x s, x ∈ l → P s → ∃ s', body x s = Some s' ∧ P s') →
  ∃ s', for_each body l s = Some s' ∧ P s'.
Proof.
  revert s. induction l as [|x l IH]; intros s HP Hbody; simpl; [eauto|].
  destruct (Hbody x s) as (s1 & -> & HP1); [left | done |]. simpl.
  apply IH; [done|]. intros y s2 Hy. apply Hbody. by right.
Qed.

(** Invariant rule for a loop that is known to have returned. *)
Lemma for_each_preserves {A S} (P : S → Prop) (body : A → S → option S) l s s' :
  (∀ x s s', x ∈ l → P s → body x s = Some s' → P s') →
  P s → for_each body l s = Some s' → P s'.
Proof.
  revert s. induction l as [|x l IH]; intros s Hbody HP; simpl.
  - by intros [= <-].
  - destruct (body x s) as [s1|] eqn:E; simpl; [|done].
    apply IH; [|eapply Hbody; eauto; left].
    intros y s2 s3 Hy. apply Hbody. by right.
Qed.

(** ** Vectors and blocks *)

Lemma vec_set_Some v k x : k < length v → vec_set v k x = Some (<[k:=x]> v).
Proof. intros. unfold vec_set. by rewrite decide_True. Qed.

Ltac vec_simp :=
  repeat first
    [ rewrite length_insert
    | rewrite list_lookup_insert_eq by (rewrite ?length_insert; lia)
    | rewrite list_lookup_insert_ne by lia ].

Lemma read_block_is_Some v i : i * 6 + 5 < length v → is_Some (read_block v i).
Proof.
  intros Hlen. unfold read_block.
  destruct (lookup_lt_is_Some_2 v (i * 6 + 0)) as [x0 ->]; [lia|].
  destruct (lookup_lt_is_Some_2 v (i * 6 + 1)) as [x1 ->]; [lia|].
  destruct (lookup_lt_is_Some_2 v (i * 6 + 2)) as [x2 ->]; [lia|].
  destruct (lookup_lt_is_Some_2 v (i * 6 + 3)) as [x3 ->]; [lia|].
  destruct (lookup_lt_is_Some_2 v (i * 6 + 4)) as [x4 ->]; [lia|].
  destruct (lookup_lt_is_Some_2 v (i * 6 + 5)) as [x5 ->]; [lia|].
  simpl. eauto.
Qed.

Lemma read_block_inv v i b :
  read_block v i = Some b →
  v !! (i * 6 + 0) = Some (b0 b) ∧ v !! (i * 6 + 1) = Some (b1 b) ∧
  v !! (i * 6 + 2) = Some (b2 b) ∧ v !! (i * 6 + 3) = Some (b3 b) ∧
  v !! (i * 6 + 4) = Some (b4 b) ∧ v !! (i * 6 + 5) = Some (b5 b).
Proof.
  unfold read_block. intros Hb.
  destruct (v !! (i * 6 + 0)); simpl in Hb; [|done].
  destruct (v !! (i * 6 + 1)); simpl in Hb; [|done].
  destruct (v !! (i * 6 + 2)); simpl in Hb; [|done].
  destruct (v !! (i * 6 + 3)); simpl in Hb; [|done].
  destruct (v !! (i * 6 + 4)); simpl in Hb; [|done].
  destruct (v !! (i * 6 + 5)); simpl in Hb; [|done].
  by injection Hb as <-.
Qed.

Lemma read_block_length v i b : read_block v i = Some b → i * 6 + 5 < length v.
Proof.
  intros Hb. apply read_block_inv in Hb as (_ & _ & _ & _ & _ & H5).
  by apply lookup_lt_Some in H5.
Qed.

Lemma read_block_intro v i x0 x1 x2 x3 x4 x5 :
  v !! (i * 6 + 0) = Some x0 → v !! (i * 6 + 1) = Some x1 →
  v !! (i * 6 + 2) = Some x2 → v !! (i * 6 + 3) = Some x3 →
  v !! (i * 6 + 4) = Some x4 → v !! (i * 6 + 5) = Some x5 →
  read_block v i = Some (mkBlock x0 x1 x2 x3 x4 x5).
Proof. unfold read_block. by intros -> -> -> -> -> ->. Qed.

(** A block only depends on its own six slots. *)
Lemma read_block_ext v v' i :
  (∀ k, i * 6 ≤ k < i * 6 + 6 → v' !! k = v !! k) →
  read_block v' i = read_block v i.
Proof. intros Hk. unfold read_block. by rewrite !Hk by lia. Qed.

(** A loop whose [i]-th iteration rewrites block [i] by [f i] and nothing
    else rewrites the first [n] blocks, each by its own [f i]. *)
Lemma block_loop (f : nat → Block → Block) body n (v : VectorXf) :
  (∀ i v b, i < n → read_block v i = Some b →
     ∃ v', body i v = Some v' ∧ length v' = length v ∧
           read_block v' i = Some (f i b) ∧ same_outside i v v') →
  n * 6 ≤ length v →
  ∃ v', for_range n body v = Some v' ∧ length v' = length v ∧
        (∀ i b, i < n → read_block v i = Some b → read_block v' i = Some (f i b)) ∧
        (∀ k, n * 6 ≤ k → v' !! k = v !! k).
Proof.
  induction n as [|n IH]; intros Hbody Hlen.
  - exists v. split_and!; [done|done|intros; lia|done].
  - destruct IH as (v1 & Hrun & Hlen1 & Hblocks & Hrest); [|lia|].
    { intros. apply Hbody; [lia|done]. }
    destruct (read_block_is_Some v n) as [b Hb]; [lia|].
    assert (read_block v1 n = Some b) as Hb1.
    { rewrite <- Hb. apply read_block_ext. intros; apply Hrest; lia. }
    destruct (Hbody n v1 b) as (v2 & Hstep & Hlen2 & Hnew & Hout); [lia|done|].
    exists v2. rewrite for_range_S, Hrun. simpl. split_and!; [done|congruence| |].
    + intros i bi Hi Hbi. destruct (decide (i = n)) as [->|Hne].
      * congruence.
      * rewrite <- (Hblocks i bi) by (done || lia).
        apply read_block_ext. intros; apply Hout; lia.
    + intros k Hk. rewrite Hout by lia. apply Hrest; lia.
Qed.

Lemma write_block_spec i b r :
  i * 6 + 5 < length r →
  ∃ r', write_block i b r = Some r' ∧ length r' = length r ∧
        read_block r' i = Some b ∧ same_outside i r r'.
Proof.
  intros Hlen. unfold write_block.
  rewrite vec_set_Some by lia. simpl.
  rewrite vec_set_Some by (vec_simp; lia). simpl.
  rewrite vec_set_Some by (vec_simp; lia). simpl.
  rewrite vec_set_Some by (vec_simp; lia). simpl.
  rewrite vec_set_Some by (vec_simp; lia). simpl.
  rewrite vec_set_Some by (vec_simp; lia).
  eexists. split; [done|]. split_and!.
  - by vec_simp.
  - destruct b. apply read_block_intro; by vec_simp.
  - intros k Hk. by vec_simp.
Qed.

(** ** The state vector *)

Lemma particle_at_Some s i a p :
  particle_at s i = Some (a, p) ↔ particles s !! i = Some a ∧ heap s !! a = Some p.
Proof.
  unfold particle_at, load. split.
  - destruct (particles s !! i) as [a'|]; simpl; [|done].
    destruct (heap s !! a') as [p'|] eqn:E; simpl; [|done].
    by intros [= <- <-].
  - intros [-> Hp]. simpl. by rewrite Hp.
Qed.

Lemma valid_particles_lookup s i a :
  valid_particles s → particles s !! i = Some a → is_Some (heap s !! a).
Proof. intros Hv Hi. exact (Forall_lookup_1 _ _ _ _ Hv Hi). Qed.

Lemma particle_at_is_Some s i :
  valid_particles s → i < length (particles s) → is_Some (particle_at s i).
Proof.
  intros Hv Hi. destruct (lookup_lt_is_Some_2 _ _ Hi) as [a Ha].
  destruct (valid_particles_lookup _ _ _ Hv Ha) as [p Hp].
  exists (a, p). by apply particle_at_Some.
Qed.

(** A loop that fills block [i] from the particle at index [i]. *)
Lemma fill_loop (blk : Particle → Block) body s :
  (∀ i r, body i r = '(_, p) ← particle_at s i; write_block i (blk p) r) →
  valid_particles s →
  ∃ r, for_range (length (particles s)) body (vec_new (getDim s)) = Some r ∧
       length r = length (particles s) * 6 ∧
       ∀ i a p, particle_at s i = Some (a, p) → read_block r i = Some (blk p).
Proof.
  intros Hbody Hv.
  set (f := λ i (b : Block),
              match particle_at s i with Some (_, p) => blk p | None => b end).
  assert (length (vec_new (getDim s)) = length (particles s) * 6) as Hlen0.
  { unfold vec_new, getDim. rewrite length_replicate. lia. }
  destruct (block_loop f body (length (particles s)) (vec_new (getDim s)))
    as (r & Hrun & Hlen & Hblocks & _); [|lia|].
  - intros i r b Hi Hb. rewrite Hbody. unfold f.
    destruct (particle_at_is_Some s i Hv Hi) as [[a p] ->]. simpl.
    apply write_block_spec. by eapply read_block_length.
  - exists r. split_and!; [done|lia|].
    intros i a p Hp.
    assert (i < length (particles s)) as Hi.
    { apply particle_at_Some in Hp as [Hp _]. by apply lookup_lt_Some in Hp. }
    destruct (read_block_is_Some (vec_new (getDim s)) i) as [b Hb]; [lia|].
    rewrite (Hblocks i b Hi Hb). unfold f. by rewrite Hp.
Qed.

Lemma getState_spec s :
  valid_particles s →
  ∃ r, getState s = Some r ∧ length r = length (particles s) * 6 ∧
       ∀ i a p, particle_at s i = Some (a, p) → read_block r i = Some (state_block p).
Proof. intros Hv. by apply (fill_loop state_block). Qed.

Lemma write_state_state_block p : write_state p (state_block p) = p.
Proof. by destruct p as [[] [] ? ? ? ? ?]. Qed.

Lemma store_same s a p : heap s !! a = Some p → store s a p = s.
Proof.
  intros Hp. unfold store, set_heap. rewrite insert_id by done. by destruct s.
Qed.

(** The body of [setState] on a block that is in range. *)
Lemma setState_body_spec src i s a p b :
  particle_at s i = Some (a, p) → read_block src i = Some b →
  setState_body src i s =
    Some (if movable p then store s a (write_state p b) else s).
Proof.
  intros Hp Hb. unfold setState_body, vec_get. rewrite Hp. simpl.
  destruct (movable p); [|done].
  apply read_block_inv in Hb as (-> & -> & -> & -> & -> & ->). done.
Qed.

Lemma immovable_kept_refl s : immovable_kept s s.
Proof. split; [done|]. intros a p Hp. eauto. Qed.

Lemma immovable_kept_trans s1 s2 s3 :
  immovable_kept s1 s2 → immovable_kept s2 s3 → immovable_kept s1 s3.
Proof.
  intros [Hp12 H12] [Hp23 H23]. split; [congruence|].
  intros a p Hp. destruct (H12 a p Hp) as (p2 & Hp2 & Hm2 & Hfix2).
  destruct (H23 a p2 Hp2) as (p3 & Hp3 & Hm3 & Hfix3).
  exists p3. split_and!; [done|congruence|].
  intros Hm. rewrite Hfix3 by congruence. auto.
Qed.

Lemma valid_particles_kept s s' :
  immovable_kept s s' → valid_particles s → valid_particles s'.
Proof.
  intros [Hps Hk] Hv. unfold valid_particles in *. rewrite Hps.
  eapply Forall_impl; [exact Hv|]. intros a [p Hp].
  destruct (Hk a p Hp) as (p' & -> & _). eauto.
Qed.

(** Overwriting the kinematic state of a movable particle. *)
Lemma store_movable_kept s a p b :
  heap s !! a = Some p → movable p = true →
  immovable_kept s (store s a (write_state p b)).
Proof.
  intros Hp Hm. split; [done|]. intros a' p' Hp'. simpl.
  destruct (decide (a = a')) as [<-|Hne].
  - rewrite lookup_insert_eq. eexists. split; [done|].
    assert (p' = p) as -> by congruence. split; [done|congruence].
  - rewrite lookup_insert_ne by done. eauto.
Qed.

Lemma setState_body_kept src i s s' :
  setState_body src i s = Some s' → immovable_kept s s'.
Proof.
  unfold setState_body. intros Hs'.
  destruct (particle_at s i) as [[a p]|] eqn:Hp; simpl in Hs'; [|done].
  apply particle_at_Some in Hp as [_ Hp].
  destruct (movable p) eqn:Hm; [|injection Hs' as <-; apply immovable_kept_refl].
  destruct (vec_get src (i * 6 + 0)) as [x0|]; simpl in Hs'; [|done].
  destruct (vec_get src (i * 6 + 1)) as [x1|]; simpl in Hs'; [|done].
  destruct (vec_get src (i * 6 + 2)) as [x2|]; simpl in Hs'; [|done].
  destruct (vec_get src (i * 6 + 3)) as [x3|]; simpl in Hs'; [|done].
  destruct (vec_get src (i * 6 + 4)) as [x4|]; simpl in Hs'; [|done].
  destruct (vec_get src (i * 6 + 5)) as [x5|]; simpl in Hs'; [|done].
  injection Hs' as <-.
  by apply (store_movable_kept s a p (mkBlock x0 x1 x2 x3 x4 x5)).
Qed.

Lemma set_time_kept s t : immovable_kept s (set_time s t).
Proof. exact (immovable_kept_refl s). Qed.

(** Whatever the vector holds, a [setState] that returns leaves the immovable
    particles as they were. *)
Lemma setState2_kept s src t s' :
  setState2 s src t = Some s' → immovable_kept s s'.
Proof.
  unfold setState2, for_range. intros Hs'.
  destruct (for_each _ _ s) as [s1|] eqn:Hloop; simpl in Hs'; [|done].
  injection Hs' as <-.
  apply (immovable_kept_trans _ s1); [|apply set_time_kept].
  revert Hloop. apply for_each_preserves; [|apply immovable_kept_refl].
  intros i s2 s3 _ Hk Hbody.
  eapply immovable_kept_trans; [exact Hk|by eapply setState_body_kept].
Qed.

(** A vector with a block for every particle is accepted. *)
Lemma setState2_returns s src t :
  valid_particles s → length (particles s) * 6 ≤ length src →
  is_Some (setState2 s src t).
Proof.
  intros Hv Hlen. unfold setState2, for_range.
  destruct (for_each_inv (λ s', immovable_kept s s')
              (setState_body src) (seq 0 (length (particles s))) s)
    as (s1 & -> & _); [apply immovable_kept_refl| |by eexists].
  intros i s1 Hi Hk. apply elem_of_seq in Hi.
  assert (valid_particles s1) as Hv1 by by eapply valid_particles_kept.
  destruct Hk as [Hps Hk0].
  destruct (particle_at_is_Some s1 i Hv1) as [[a p] Hp]; [rewrite Hps; lia|].
  destruct (read_block_is_Some src i) as [b Hb]; [lia|].
  rewrite (setState_body_spec _ _ _ _ _ _ Hp Hb). eexists. split; [done|].
  eapply immovable_kept_trans; [by split|].
  apply particle_at_Some in Hp as [_ Hp].
  destruct (movable p) eqn:Hm; [by apply store_movable_kept|apply immovable_kept_refl].
Qed.

Lemma write_state_idemp p b b' :
  write_state (write_state p b) b' = write_state p b'.
Proof. done. Qed.

Lemma written_movable B l a p : movable (written B l a p) = movable p.
Proof. unfold written. by destruct (_ && _). Qed.

Lemma written_snoc_ne B l a a' p :
  a ≠ a' → written B (l ++ [a]) a' p = written B l a' p.
Proof.
  intros Hne. unfold written.
  assert (bool_decide (a' ∈ l ++ [a]) = bool_decide (a' ∈ l)) as ->; [|done].
  apply bool_decide_ext.
  rewrite elem_of_app, list_elem_of_singleton.
  split; [intros [?|?]; [done|congruence]|by left].
Qed.

Lemma written_snoc_eq B l a p :
  movable p = true → written B (l ++ [a]) a p = write_state p (B a).
Proof.
  intros Hm. unfold written. rewrite Hm.
  rewrite bool_decide_eq_true_2; [done|].
  apply elem_of_app. right. by apply list_elem_of_singleton.
Qed.

Lemma System_eq s s' :
  heap s' = heap s → particles s' = particles s → forces s' = forces s →
  time s' = time s → dt s' = dt s → s' = s.
Proof. destruct s, s'; simpl; by intros -> -> -> -> ->. Qed.

(** The loop of [setState] on a vector whose block at index [i] is a function
    [B] of the address [particles[i]]. *)
Lemma setState_loop_written s src (B : addr → Block) n :
  valid_particles s →
  (∀ i a, particles s !! i = Some a → read_block src i = Some (B a)) →
  n ≤ length (particles s) →
  ∃ s', for_range n (setState_body src) s = Some s' ∧
        particles s' = particles s ∧ forces s' = forces s ∧
        time s' = time s ∧ dt s' = dt s ∧
        ∀ a, heap s' !! a = written B (take n (particles s)) a <$> heap s !! a.
Proof.
  intros Hv Hsrc. induction n as [|n IH]; intros Hn.
  - exists s. split_and!; try done. intros a. rewrite take_0.
    destruct (heap s !! a) as [p|]; simpl; [|done]. f_equal. unfold written.
    rewrite bool_decide_eq_false_2 by apply not_elem_of_nil.
    by rewrite andb_false_r.
  - destruct IH as (s1 & Hrun & Hps & Hfs & Ht & Hdt & Hheap); [lia|].
    rewrite for_range_S, Hrun. simpl.
    destruct (lookup_lt_is_Some_2 (particles s) n) as [a Ha]; [lia|].
    destruct (valid_particles_lookup _ _ _ Hv Ha) as [p0 Hp0].
    pose proof (Hheap a) as Hp1. rewrite Hp0 in Hp1. simpl in Hp1.
    assert (particle_at s1 n = Some (a, written B (take n (particles s)) a p0)) as Hat.
    { apply particle_at_Some. by rewrite Hps. }
    rewrite (setState_body_spec _ _ _ _ _ _ Hat (Hsrc n a Ha)).
    rewrite written_movable.
    eexists. split; [done|].
    rewrite (take_S_r _ _ _ Ha).
    destruct (movable p0) eqn:Hm; simpl.
    + split_and!; try done. intros a'.
      destruct (decide (a = a')) as [<-|Hne].
      * rewrite lookup_insert_eq, Hp0. simpl. f_equal.
        rewrite written_snoc_eq by done.
        unfold written. destruct (_ && _); by rewrite ?write_state_idemp.
      * rewrite lookup_insert_ne by done. rewrite Hheap.
        destruct (heap s !! a') as [p'|]; simpl; [|done].
        by rewrite written_snoc_ne.
    + split_and!; try done. intros a'. rewrite Hheap.
      destruct (heap s !! a') as [p'|] eqn:Hp'; simpl; [|done]. f_equal.
      destruct (decide (a = a')) as [<-|Hne]; [|by rewrite written_snoc_ne].
      assert (p' = p0) as -> by congruence.
      unfold written. by rewrite Hm.
Qed.

Lemma setState2_written s src t (B : addr → Block) :
  valid_particles s →
  (∀ i a, particles s !! i = Some a → read_block src i = Some (B a)) →
  ∃ s', setState2 s src t = Some s' ∧
        particles s' = particles s ∧ forces s' = forces s ∧
        time s' = t ∧ dt s' = dt s ∧
        ∀ a, heap s' !! a = written B (particles s) a <$> heap s !! a.
Proof.
  intros Hv Hsrc.
  destruct (setState_loop_written s src B (length (particles s)) Hv Hsrc)
    as (s1 & Hrun & Hps & Hfs & Ht & Hdt & Hheap); [done|].
  unfold setState2. rewrite Hrun. simpl. eexists. split; [done|].
  rewrite firstn_all in Hheap. by split_and!.
Qed.

Lemma getState_snapshot s :
  valid_particles s →
  ∃ r, getState s = Some r ∧ length r = length (particles s) * 6 ∧
       ∀ i a, particles s !! i = Some a → read_block r i = Some (snapshot_block s a).
Proof.
  intros Hv. destruct (getState_spec s Hv) as (r & Hr & Hlen & Hblocks).
  exists r. split_and!; [done..|]. intros i a Ha.
  destruct (valid_particles_lookup _ _ _ Hv Ha) as [p Hp].
  unfold snapshot_block. rewrite Hp. apply (Hblocks i a). by apply particle_at_Some.
Qed.

(** C7: for every particle configuration with valid particle pointers,
    [getState] returns a vector and [setState] of that vector returns the
    System it was given: no position, velocity or any other field changes,
    for movable and immovable particles alike. *)
Theorem setState_getState_roundtrip (s : System) :
  valid_particles s →
  ∃ r, getState s = Some r ∧ setState s r = Some s.
Proof.
  intros Hv. destruct (getState_snapshot s Hv) as (r & Hr & _ & Hblocks).
  exists r. split; [done|].
  destruct (setState2_written s r (getTime s) (snapshot_block s) Hv Hblocks)
    as (s' & Hset & Hps & Hfs & Ht & Hdt & Hheap).
  unfold setState. rewrite Hset. f_equal.
  apply System_eq; try done. apply map_eq. intros a. rewrite Hheap.
  destruct (heap s !! a) as [p|] eqn:Hp; simpl; [|done]. f_equal.
  unfold written, snapshot_block. rewrite Hp.
  destruct (_ && _); [apply write_state_state_block|done].
Qed.

(** C8: for a System with valid particle pointers and a vector that has a
    block for every particle, both forms of [setState] return, and behind
    every address whose particle is immovable the very same particle is found
    afterwards, whatever the vector holds. *)
Theorem setState_immovable_unchanged (s : System) (src : VectorXf) (t : float) :
  valid_particles s → length (particles s) * 6 ≤ length src →
  ∃ s1 s2, setState s src = Some s1 ∧ setState2 s src t = Some s2 ∧
    ∀ a p, heap s !! a = Some p → movable p = false →
           heap s1 !! a = Some p ∧ heap s2 !! a = Some p.
Proof.
  intros Hv Hlen.
  destruct (setState2_returns s src (getTime s) Hv Hlen) as [s1 Hs1].
  destruct (setState2_returns s src t Hv Hlen) as [s2 Hs2].
  exists s1, s2. split_and!; [done..|]. intros a p Hp Hm.
  destruct (setState2_kept _ _ _ _ Hs1) as [_ Hk1].
  destruct (setState2_kept _ _ _ _ Hs2) as [_ Hk2].
  destruct (Hk1 a p Hp) as (p1 & Hp1 & _ & Hfix1).
  destruct (Hk2 a p Hp) as (p2 & Hp2 & _ & Hfix2).
  rewrite Hp1, Hp2, Hfix1, Hfix2; done.
Qed.

(** ** Collisions *)

(** Reduces one pass on a block that is in range to its inserts. *)
Ltac collide_pass Hb :=
  let b := fresh "b" in
  apply read_block_inv in Hb as (H0 & H1 & H2 & H3 & H4 & H5);
  pose proof (lookup_lt_Some _ _ _ H5) as Hlen;
  rewrite ?Nat.add_0_r in H0;
  unfold vec_get;
  repeat first
    [ rewrite H0 | rewrite H1 | rewrite H2 | rewrite H3 | rewrite H4 | rewrite H5
    | rewrite vec_set_Some by (vec_simp; lia)
    | progress vec_simp
    | progress simpl
    | match goal with |- context [if ?c then _ else _] => destruct c end ];
  (eexists; split; [reflexivity|]; split_and!;
   [ by vec_simp
   | apply read_block_intro; rewrite ?Nat.add_0_r; by vec_simp
   | intros k Hk; by vec_simp ]).

Lemma collide_x_low_spec i v b :
  read_block v i = Some b →
  ∃ v', collide_x_low i v = Some v' ∧ length v' = length v ∧
        read_block v' i = Some (clamp_x_low b) ∧ same_outside i v v'.
Proof.
  intros Hb. pose proof Hb as Hb'. destruct b as [x y z vx vy vz].
  unfold collide_x_low, clamp_x_low. collide_pass Hb.
Qed.

Lemma collide_x_high_spec i v b :
  read_block v i = Some b →
  ∃ v', collide_x_high i v = Some v' ∧ length v' = length v ∧
        read_block v' i = Some (clamp_x_high b) ∧ same_outside i v v'.
Proof.
  intros Hb. destruct b as [x y z vx vy vz].
  unfold collide_x_high, clamp_x_high. collide_pass Hb.
Qed.

Lemma collide_z_low_spec i v b :
  read_block v i = Some b →
  ∃ v', collide_z_low i v = Some v' ∧ length v' = length v ∧
        read_block v' i = Some (clamp_z_low b) ∧ same_outside i v v'.
Proof.
  intros Hb. destruct b as [x y z vx vy vz].
  unfold collide_z_low, clamp_z_low. collide_pass Hb.
Qed.

Lemma collide_z_high_spec i v b :
  read_block v i = Some b →
  ∃ v', collide_z_high i v = Some v' ∧ length v' = length v ∧
        read_block v' i = Some (clamp_z_high b) ∧ same_outside i v v'.
Proof.
  intros Hb. destruct b as [x y z vx vy vz].
  unfold collide_z_high, clamp_z_high. collide_pass Hb.
Qed.

Lemma collide_y_low_spec i v b :
  read_block v i = Some b →
  ∃ v', collide_y_low i v = Some v' ∧ length v' = length v ∧
        read_block v' i = Some (clamp_y_low b) ∧ same_outside i v v'.
Proof.
  intros Hb. destruct b as [x y z vx vy vz].
  unfold collide_y_low, clamp_y_low. collide_pass Hb.
Qed.

(** One pass over all particles. *)
Lemma collide_pass_loop (f : Block → Block) body n v :
  (∀ i v b, read_block v i = Some b →
     ∃ v', body i v = Some v' ∧ length v' = length v ∧
           read_block v' i = Some (f b) ∧ same_outside i v v') →
  n * 6 ≤ length v →
  ∃ v', for_range n body v = Some v' ∧ length v' = length v ∧
        (∀ i b, i < n → read_block v i = Some b → read_block v' i = Some (f b)) ∧
        (∀ k, n * 6 ≤ k → v' !! k = v !! k).
Proof. intros Hbody. apply (block_loop (λ _, f)). intros i v0 b _. apply Hbody. Qed.

(** [checkCollisions] returns on every vector that has a block for each of
    the [n] particles, and rewrites each block by [collide_block]. *)
Lemma checkCollisions_spec n v :
  n * 6 ≤ length v →
  ∃ v', checkCollisions n v = Some v' ∧ length v' = length v ∧
        (∀ i b, i < n → read_block v i = Some b →
                read_block v' i = Some (collide_block b)) ∧
        (∀ k, n * 6 ≤ k → v' !! k = v !! k).
Proof.
  intros Hlen. unfold checkCollisions, collide_block.
  destruct (collide_pass_loop clamp_x_low collide_x_low n v collide_x_low_spec)
    as (v1 & -> & Hl1 & Hb1 & Hr1); [lia|]. simpl.
  destruct (collide_pass_loop clamp_x_high collide_x_high n v1 collide_x_high_spec)
    as (v2 & -> & Hl2 & Hb2 & Hr2); [lia|]. simpl.
  destruct (collide_pass_loop clamp_z_low collide_z_low n v2 collide_z_low_spec)
    as (v3 & -> & Hl3 & Hb3 & Hr3); [lia|]. simpl.
  destruct (collide_pass_loop clamp_z_high collide_z_high n v3 collide_z_high_spec)
    as (v4 & -> & Hl4 & Hb4 & Hr4); [lia|]. simpl.
  destruct (collide_pass_loop clamp_y_low collide_y_low n v4 collide_y_low_spec)
    as (v5 & -> & Hl5 & Hb5 & Hr5); [lia|].
  exists v5. split_and!; [done|lia| |].
  - intros i b Hi Hb. by apply Hb5, Hb4, Hb3, Hb2, Hb1.
  - intros k Hk. rewrite Hr5, Hr4, Hr3, Hr2, Hr1; done.
Qed.

(** *** Order of binary32 *)

Lemma compare_cont_swap m1 m2 :
  Pos.compare_cont Eq m2 m1 = CompOpp (Pos.compare_cont Eq m1 m2).
Proof. symmetry. exact (Pos.compare_cont_antisym m1 m2 Eq). Qed.

Lemma SFcompare_swap x y : SFcompare y x = CompOpp <$> SFcompare x y.
Proof.
  destruct x as [sx|sx| |sx mx ex], y as [sy|sy| |sy my ey]; simpl;
    try done; try (by destruct sx); try (by destruct sy);
    try (by destruct sx, sy).
  destruct sx, sy; simpl; try done; f_equal;
    rewrite (Z.compare_antisym ex ey);
    destruct (ex ?= ey)%Z; simpl; try done;
    by rewrite (compare_cont_swap mx my).
Qed.

Lemma SFcompare_is_Some x y :
  is_nan x = false → is_nan y = false → is_Some (SFcompare x y).
Proof. destruct x, y; simpl; try done; eauto. Qed.

(** [!(x < y)] gives [y <= x] when neither is a NaN. *)
Lemma f32_not_lt_le x y :
  is_nan x = false → is_nan y = false → f32_lt x y = false → f32_le y x = true.
Proof.
  intros Hx Hy. unfold f32_lt, f32_le, SFltb, SFleb.
  rewrite (SFcompare_swap x y).
  destruct (SFcompare_is_Some x y Hx Hy) as [c ->]. by destruct c.
Qed.

Lemma f32_le_not_lt x y : f32_le x y = true → f32_lt y x = false.
Proof.
  unfold f32_lt, f32_le, SFltb, SFleb. rewrite (SFcompare_swap x y).
  destruct (SFcompare x y) as [[]|]; done.
Qed.

(** *** One particle *)

Ltac block_cbn := cbn [b0 b1 b2 b3 b4 b5].

Lemma collide_block_position b :
  b0 (collide_block b) = clamp_side (b0 b) ∧
  b1 (collide_block b) = clamp_floor (b1 b) ∧
  b2 (collide_block b) = clamp_side (b2 b).
Proof.
  assert (f32_lt lit_0_2f (f32_neg lit_0_2f) = false) as Hlit by reflexivity.
  destruct b as [x y z vx vy vz].
  unfold collide_block, clamp_side, clamp_floor.
  unfold clamp_x_low; block_cbn.
  destruct (f32_lt x (f32_neg lit_0_2f)) eqn:Ex;
    unfold clamp_x_high; block_cbn; rewrite ?Hlit;
    destruct (f32_lt lit_0_2f x) eqn:Ex';
    unfold clamp_z_low; block_cbn;
    destruct (f32_lt z (f32_neg lit_0_2f)) eqn:Ez;
    unfold clamp_z_high; block_cbn; rewrite ?Hlit;
    destruct (f32_lt lit_0_2f z) eqn:Ez';
    unfold clamp_y_low; block_cbn;
    destruct (f32_lt y (f32_neg lit_2_0f)) eqn:Ey; done.
Qed.

Lemma clamp_side_range x : is_nan x = false → in_side_range (clamp_side x) = true.
Proof.
  intros Hx. unfold clamp_side, in_side_range.
  destruct (f32_lt x _) eqn:Elo; [done|].
  destruct (f32_lt _ x) eqn:Ehi; [done|].
  rewrite (f32_not_lt_le x (f32_neg lit_0_2f)) by done.
  by rewrite (f32_not_lt_le lit_0_2f x).
Qed.

Lemma clamp_side_id x : in_side_range x = true → clamp_side x = x.
Proof.
  unfold in_side_range, clamp_side. intros [Hlo Hhi]%andb_true_iff.
  by rewrite (f32_le_not_lt _ _ Hlo), (f32_le_not_lt _ _ Hhi).
Qed.

Lemma clamp_floor_range y : is_nan y = false → in_floor_range (clamp_floor y) = true.
Proof.
  intros Hy. unfold clamp_floor, in_floor_range.
  destruct (f32_lt y _) eqn:Elo; [done|].
  by apply f32_not_lt_le.
Qed.

Lemma clamp_floor_id y : in_floor_range y = true → clamp_floor y = y.
Proof.
  unfold in_floor_range, clamp_floor. intros Hlo.
  by rewrite (f32_le_not_lt _ _ Hlo).
Qed.

(** A block inside the container is a fixed point of all five passes. *)
Lemma collide_block_inside b :
  in_side_range (b0 b) = true → in_floor_range (b1 b) = true →
  in_side_range (b2 b) = true → collide_block b = b.
Proof.
  unfold in_side_range, in_floor_range.
  intros [Hx Hx']%andb_true_iff Hy [Hz Hz']%andb_true_iff.
  destruct b as [x y z vx vy vz]. cbn [b0 b1 b2 b3 b4 b5] in *.
  unfold collide_block, clamp_x_low. block_cbn.
  rewrite (f32_le_not_lt _ _ Hx). unfold clamp_x_high. block_cbn.
  rewrite (f32_le_not_lt _ _ Hx'). unfold clamp_z_low. block_cbn.
  rewrite (f32_le_not_lt _ _ Hz). unfold clamp_z_high. block_cbn.
  rewrite (f32_le_not_lt _ _ Hz'). unfold clamp_y_low. block_cbn.
  by rewrite (f32_le_not_lt _ _ Hy).
Qed.

(** The velocity slots after the five passes.  The X and the Y slot are
    negated when their own coordinate is clamped while moving outwards; the
    Z slot then receives the negated X slot. *)
Lemma collide_block_velocity b :
  let b' := clamp_x_high (clamp_x_low b) in
  b3 (collide_block b) = b3 b' ∧
  b3 b' =
    (if f32_lt (b0 b) (f32_neg lit_0_2f)
     then (if f32_lt (b3 b) (f32_of_Z 0) then f32_neg (b3 b) else b3 b)
     else if f32_lt lit_0_2f (b0 b)
          then (if f32_lt (f32_of_Z 0) (b3 b) then f32_neg (b3 b) else b3 b)
          else b3 b) ∧
  b4 (collide_block b) =
    (if f32_lt (b1 b) (f32_neg lit_2_0f)
     then (if f32_lt (b4 b) (f32_of_Z 0) then f32_neg (b4 b) else b4 b)
     else b4 b) ∧
  b5 (collide_block b) =
    (if f32_lt (b2 b) (f32_neg lit_0_2f)
     then (if f32_lt (b5 b) (f32_of_Z 0) then f32_neg (b3 b') else b5 b)
     else if f32_lt lit_0_2f (b2 b)
          then (if f32_lt (f32_of_Z 0) (b5 b) then f32_neg (b3 b') else b5 b)
          else b5 b).
Proof.
  assert (f32_lt lit_0_2f (f32_neg lit_0_2f) = false) as Hlit by reflexivity.
  destruct b as [x y z vx vy vz]. intros b'. unfold b', collide_block.
  unfold clamp_x_low; block_cbn.
  destruct (f32_lt x (f32_neg lit_0_2f)) eqn:Ex;
    unfold clamp_x_high; block_cbn; rewrite ?Hlit;
    destruct (f32_lt lit_0_2f x) eqn:Ex'; block_cbn;
    unfold clamp_z_low; block_cbn;
    destruct (f32_lt z (f32_neg lit_0_2f)) eqn:Ez;
    unfold clamp_z_high; block_cbn; rewrite ?Hlit;
    destruct (f32_lt lit_0_2f z) eqn:Ez'; block_cbn;
    unfold clamp_y_low; block_cbn;
    destruct (f32_lt y (f32_neg lit_2_0f)) eqn:Ey; block_cbn; done.
Qed.

(** C10 (amended): on a vector of length 6N none of whose position slots is a
    NaN, [checkCollisions] returns a vector of the same length in which every
    particle has its X and Z in [-0.2f, 0.2f] and its Y at least -2.0f, and
    every position slot that was within its bounds keeps its input value. *)
Theorem checkCollisions_container (n : nat) (v : VectorXf) :
  length v = n * 6 →
  (∀ i b, read_block v i = Some b → position_ordered b) →
  ∃ v', checkCollisions n v = Some v' ∧ length v' = n * 6 ∧
    ∀ i, i < n →
      ∃ b b', read_block v i = Some b ∧ read_block v' i = Some b' ∧
        in_side_range (b0 b') = true ∧ in_floor_range (b1 b') = true ∧
        in_side_range (b2 b') = true ∧
        (in_side_range (b0 b) = true → b0 b' = b0 b) ∧
        (in_floor_range (b1 b) = true → b1 b' = b1 b) ∧
        (in_side_range (b2 b) = true → b2 b' = b2 b).
Proof.
  intros Hlen Hord.
  destruct (checkCollisions_spec n v) as (v' & Hrun & Hlen' & Hblocks & _); [lia|].
  exists v'. split_and!; [done|lia|]. intros i Hi.
  destruct (read_block_is_Some v i) as [b Hb]; [lia|].
  exists b, (collide_block b). split_and!; [done|by apply Hblocks|..];
    destruct (collide_block_position b) as (Hb0 & Hb1 & Hb2);
    rewrite ?Hb0, ?Hb1, ?Hb2;
    destruct (Hord i b Hb) as (Hx & Hy & Hz).
  - by apply clamp_side_range.
  - by apply clamp_floor_range.
  - by apply clamp_side_range.
  - apply clamp_side_id.
  - apply clamp_floor_id.
  - apply clamp_side_id.
Qed.

(** ** Frames *)

Lemma agree_on_refl {A} (proj : Particle → A) s : agree_on proj s s.
Proof. by split_and!. Qed.

Lemma agree_on_trans {A} (proj : Particle → A) s1 s2 s3 :
  agree_on proj s1 s2 → agree_on proj s2 s3 → agree_on proj s1 s3.
Proof.
  intros (? & ? & ? & ? & H12) (? & ? & ? & ? & H23).
  split_and!; [congruence..|]. intros a. by rewrite H23, H12.
Qed.

(** Replacing a particle by one with the same projection. *)
Lemma agree_on_store {A} (proj : Particle → A) s a p p' :
  heap s !! a = Some p → proj p' = proj p → agree_on proj s (store s a p').
Proof.
  intros Hp Hproj. split_and!; try done. intros a'. simpl.
  destruct (decide (a = a')) as [<-|Hne].
  - rewrite lookup_insert_eq, Hp. simpl. by rewrite Hproj.
  - by rewrite lookup_insert_ne.
Qed.

Lemma agree_on_lookup {A} (proj : Particle → A) s s' a p :
  agree_on proj s s' → heap s !! a = Some p →
  ∃ p', heap s' !! a = Some p' ∧ proj p' = proj p.
Proof.
  intros (_ & _ & _ & _ & Hh) Hp. specialize (Hh a). rewrite Hp in Hh.
  destruct (heap s' !! a) as [p'|]; simpl in Hh; [|done].
  exists p'. split; [done|congruence].
Qed.

Lemma occurrences_snoc_eq a l : occurrences a (l ++ [a]) = S (occurrences a l).
Proof.
  unfold occurrences. rewrite filter_app, length_app.
  rewrite filter_cons_True by done. simpl. lia.
Qed.

Lemma occurrences_snoc_ne a a' l : a ≠ a' → occurrences a' (l ++ [a]) = occurrences a' l.
Proof.
  intros Hne. unfold occurrences. rewrite filter_app, length_app.
  rewrite filter_cons_False by done. simpl. lia.
Qed.

(** ** Surface tension *)

Section SurfaceForce.
Context {env : Collaborators}.
Hypothesis dEval_blind : force_blind colorField_dEval.
Hypothesis ddEval_blind : force_blind colorField_ddEval.

Lemma surface_normal_blind s s' p p' :
  agree_on erase_force s s' → erase_force p' = erase_force p →
  surface_normal s' p' = surface_normal s p.
Proof.
  intros Hs Hp. unfold surface_normal. rewrite (dEval_blind s s' _ Hs).
  by injection Hp as -> _.
Qed.

Lemma surface_term_blind s s' p p' :
  agree_on erase_force s s' → erase_force p' = erase_force p →
  surface_term s' p' = surface_term s p.
Proof.
  intros Hs Hp. unfold surface_term.
  rewrite (surface_normal_blind s s' p p' Hs Hp), (ddEval_blind s s' _ Hs).
  by injection Hp as -> _.
Qed.

Lemma surface_result_erase s l a p :
  erase_force (surface_result s l a p) = erase_force p.
Proof. unfold surface_result. by destruct (f32_lt _ _). Qed.

Lemma surface_loop targets s :
  (∀ a, a ∈ targets → is_Some (heap s !! a)) →
  ∃ s', SurfaceForce_apply targets s = Some s' ∧ agree_on erase_force s s' ∧
        ∀ a, heap s' !! a = surface_result s targets a <$> heap s !! a.
Proof.
  unfold SurfaceForce_apply.
  induction targets as [|a l IH] using rev_ind; intros Hvalid.
  - exists s. split_and!; [done|apply agree_on_refl|]. intros a.
    destruct (heap s !! a) as [p|]; simpl; [|done]. f_equal.
    unfold surface_result. simpl. destruct p. by destruct (f32_lt _ _).
  - destruct IH as (s1 & Hrun & Hagree & Hheap).
    { intros a' Ha'. apply Hvalid, elem_of_app. by left. }
    rewrite for_each_app, Hrun. simpl.
    destruct (Hvalid a) as [p0 Hp0]; [apply elem_of_app; right; by left|].
    pose proof (Hheap a) as Hp1. rewrite Hp0 in Hp1. simpl in Hp1.
    set (p1 := surface_result s l a p0) in *.
    assert (erase_force p1 = erase_force p0) as Hp10 by apply surface_result_erase.
    unfold surface_body, load. rewrite Hp1. simpl.
    fold (surface_normal s1 p1). fold (surface_term s1 p1).
    rewrite (surface_normal_blind s s1 p0 p1 Hagree Hp10).
    rewrite (surface_term_blind s s1 p0 p1 Hagree Hp10).
    destruct (f32_lt lit_0_01f (norm3 (surface_normal s p0))) eqn:Hthr.
    + eexists. split; [done|]. split.
      * eapply agree_on_trans; [exact Hagree|]. by apply (agree_on_store _ _ _ p1).
      * intros a'. simpl. destruct (decide (a = a')) as [<-|Hne].
        -- rewrite lookup_insert_eq, Hp0. simpl. f_equal.
           unfold surface_result. rewrite Hthr, occurrences_snoc_eq. simpl.
           unfold p1, surface_result. rewrite Hthr. by destruct p0.
        -- rewrite lookup_insert_ne by done. rewrite Hheap.
           destruct (heap s !! a') as [p'|]; simpl; [|done]. f_equal.
           unfold surface_result. by rewrite occurrences_snoc_ne.
    + exists s1. split_and!; [done..|]. intros a'. rewrite Hheap.
      destruct (heap s !! a') as [p'|] eqn:Hp'; simpl; [|done]. f_equal.
      destruct (decide (a = a')) as [<-|Hne].
      * assert (p' = p0) as -> by congruence.
        unfold surface_result. by rewrite Hthr.
      * unfold surface_result. by rewrite occurrences_snoc_ne.
Qed.

End SurfaceForce.

Lemma occurrences_not_elem a l : a ∉ l → occurrences a l = 0.
Proof.
  intros Ha. unfold occurrences. induction l as [|x l IH]; [done|].
  apply not_elem_of_cons in Ha as [Hne Ha].
  rewrite filter_cons_False by congruence. auto.
Qed.

Lemma occurrences_cons a x l :
  occurrences a (x :: l) = (if decide (x = a) then 1 else 0) + occurrences a l.
Proof.
  unfold occurrences. destruct (decide (x = a)) as [Heq|Hne].
  - by rewrite filter_cons_True.
  - by rewrite filter_cons_False.
Qed.

Lemma occurrences_NoDup a l : NoDup l → a ∈ l → occurrences a l = 1.
Proof.
  induction 1 as [|x l Hx Hnd IH]; intros Ha; [by apply elem_of_nil in Ha|].
  rewrite occurrences_cons. apply elem_of_cons in Ha as [->|Ha].
  - rewrite decide_True by done. by rewrite (occurrences_not_elem x l Hx).
  - rewrite decide_False by (intros ->; done). auto.
Qed.

Section SurfaceForceClaim.
Context {env : Collaborators}.

(** C9: when the colour field does not read the force accumulators and every
    target is a valid particle, [SurfaceForce::apply] returns, changes nothing
    but force accumulators, and for every particle [p]: if the norm of the
    gradient [n = dEval(position)] is greater than [0.01f], the vector
    [-sigma * ddEval(position) * n / |n|] (sigma = [72.75f]) has been added to
    its force accumulator once for each time it is listed as a target, so
    exactly once when the target vector lists it once; if the norm is not
    greater, or the particle is no target, the particle is unchanged. *)
Theorem SurfaceForce_apply_threshold (targets : list nat) (s : System) :
  force_blind colorField_dEval → force_blind colorField_ddEval →
  (∀ a, a ∈ targets → is_Some (heap s !! a)) →
  ∃ s', SurfaceForce_apply targets s = Some s' ∧ agree_on erase_force s s' ∧
    ∀ a p, heap s !! a = Some p →
      let n := colorField_dEval s (position p) in
      let pushed := λ f,
        v3_add f
          (v3_div
             (v3_scale (f32_mul (f32_neg lit_72_75f) (colorField_ddEval s (position p))) n)
             (norm3 n)) in
      ∃ p', heap s' !! a = Some p' ∧
        (f32_lt lit_0_01f (norm3 n) = true →
           force p' = Nat.iter (occurrences a targets) pushed (force p) ∧
           (NoDup targets → a ∈ targets → force p' = pushed (force p))) ∧
        (f32_lt lit_0_01f (norm3 n) = false → p' = p) ∧
        (a ∉ targets → p' = p).
Proof.
  intros Hd Hdd Hvalid.
  destruct (surface_loop Hd Hdd targets s Hvalid) as (s' & Hrun & Hagree & Hheap).
  exists s'. split_and!; [done..|]. intros a p Hp n pushed.
  exists (surface_result s targets a p). rewrite Hheap, Hp.
  split_and!; [done|..]; unfold surface_result, surface_normal, surface_term;
    fold n; fold pushed.
  - intros ->. split; [done|]. intros Hnd Ha. simpl.
    by rewrite (occurrences_NoDup a targets Hnd Ha).
  - by intros ->.
  - intros Ha. rewrite (occurrences_not_elem a targets Ha). simpl.
    destruct p. by destruct (f32_lt _ _).
Qed.

End SurfaceForceClaim.

(** ** Viscosity *)

Section ViscosityForce.
Context {env : Collaborators}.

(** The neighbour loop keeps the term of the last neighbour only. *)
Lemma viscosity_neighbours_last s ai pi nbrs v0 :
  heap s !! ai = Some pi →
  (∀ aj, aj ∈ nbrs → is_Some (heap s !! aj)) →
  viscosity_neighbours s ai nbrs v0 = Some (viscosity_last s pi nbrs v0).
Proof.
  intros Hpi. unfold viscosity_neighbours, viscosity_last.
  induction nbrs as [|aj l IH] using rev_ind; intros Hvalid; [done|].
  rewrite for_each_app, IH, last_snoc.
  2:{ intros a Ha. apply Hvalid, elem_of_app. by left. }
  destruct (Hvalid aj) as [pj Hpj]; [apply elem_of_app; right; by left|].
  simpl. unfold load. by rewrite Hpi, Hpj.
Qed.

Lemma viscosity_body_last s ai pi :
  heap s !! ai = Some pi →
  (∀ aj, aj ∈ grid_query s (position pi) → is_Some (heap s !! aj)) →
  viscosity_body ai s =
    Some (store s ai
            (set_force pi
               (v3_add (force pi)
                  (v3_scale lit_100f
                     (viscosity_last s pi (grid_query s (position pi)) v3_zero))))).
Proof.
  intros Hpi Hvalid. unfold viscosity_body, load. rewrite Hpi. simpl.
  by rewrite (viscosity_neighbours_last s ai pi _ _ Hpi Hvalid).
Qed.

End ViscosityForce.

(** ** Derivative evaluation *)

Lemma bool_decide_snoc_ne (a a' : nat) l :
  a ≠ a' → bool_decide (a' ∈ l ++ [a]) = bool_decide (a' ∈ l).
Proof.
  intros Hne. apply bool_decide_ext.
  rewrite elem_of_app, list_elem_of_singleton.
  split; [intros [?|?]; [done|congruence]|by left].
Qed.

Lemma bool_decide_snoc_eq (a : nat) l : bool_decide (a ∈ l ++ [a]) = true.
Proof.
  apply bool_decide_eq_true_2, elem_of_app. right. by apply list_elem_of_singleton.
Qed.

Lemma fmap_is_Some_lookup (f : Particle → Particle) (h h' : gmap nat Particle) a :
  h' !! a = f <$> h !! a → is_Some (h !! a) → is_Some (h' !! a).
Proof. intros -> [p ->]. simpl. eauto. Qed.

(** A loop over particle addresses that rewrites each particle by an
    idempotent [g] rewrites exactly the listed particles, once. *)
Lemma particle_loop (g : Particle → Particle) body (l : list nat) s :
  (∀ p, g (g p) = g p) →
  (∀ a s p, heap s !! a = Some p → body a s = Some (store s a (g p))) →
  (∀ a, a ∈ l → is_Some (heap s !! a)) →
  ∃ s', for_each body l s = Some s' ∧
        particles s' = particles s ∧ forces s' = forces s ∧
        time s' = time s ∧ dt s' = dt s ∧
        ∀ a, heap s' !! a = (λ p, if bool_decide (a ∈ l) then g p else p) <$> heap s !! a.
Proof.
  intros Hidem Hbody. induction l as [|a l IH] using rev_ind; intros Hvalid.
  - exists s. split_and!; try done. intros a.
    by destruct (heap s !! a) as [p|].
  - destruct IH as (s1 & Hrun & Hps & Hfs & Ht & Hdt & Hheap).
    { intros a' Ha'. apply Hvalid, elem_of_app. by left. }
    rewrite for_each_app, Hrun. simpl.
    destruct (Hvalid a) as [p0 Hp0]; [apply elem_of_app; right; by left|].
    pose proof (Hheap a) as Hp1. rewrite Hp0 in Hp1. simpl in Hp1.
    rewrite (Hbody _ _ _ Hp1). simpl. eexists. split; [done|].
    split_and!; try done. intros a'. simpl.
    destruct (decide (a = a')) as [<-|Hne].
    + rewrite lookup_insert_eq, Hp0. simpl. f_equal.
      rewrite bool_decide_snoc_eq. by destruct (bool_decide _).
    + rewrite lookup_insert_ne by done. rewrite Hheap.
      destruct (heap s !! a') as [p'|]; simpl; [|done].
      by rewrite bool_decide_snoc_ne.
Qed.

Section DerivEval.
Context {env : Collaborators}.

Lemma clearForces_spec s :
  valid_particles s →
  ∃ s', clearForces s = Some s' ∧
        particles s' = particles s ∧ forces s' = forces s ∧
        time s' = time s ∧ dt s' = dt s ∧
        ∀ a, heap s' !! a =
             (λ p, if bool_decide (a ∈ particles s) then erase_force p else p)
               <$> heap s !! a.
Proof.
  intros Hv. apply (particle_loop erase_force); [done| |].
  - intros a s0 p Hp. unfold load. by rewrite Hp.
  - intros a Ha. apply list_elem_of_lookup in Ha as [i Hi].
    by eapply valid_particles_lookup.
Qed.

Lemma pressure_loop_spec k rest (l : list nat) s :
  (∀ a, a ∈ l → is_Some (heap s !! a)) →
  ∃ s', for_each (pressure_body k rest) l s = Some s' ∧
        particles s' = particles s ∧ forces s' = forces s ∧
        time s' = time s ∧ dt s' = dt s ∧
        ∀ a, heap s' !! a =
             (λ p, if bool_decide (a ∈ l)
                   then set_pressure p (f32_mul k (f32_sub (density p) rest)) else p)
               <$> heap s !! a.
Proof.
  apply (particle_loop (λ p, set_pressure p (f32_mul k (f32_sub (density p) rest))));
    [done|].
  intros a s0 p Hp. unfold pressure_body, load. by rewrite Hp.
Qed.

Hypothesis density_blind : force_density_blind densityField_eval.

(** The density loop: every listed particle gets the density that the field
    gives on the initial state, and the densities are summed in list order. *)
Lemma density_loop_spec (l : list nat) s acc :
  (∀ a, a ∈ l → is_Some (heap s !! a)) →
  ∃ s', for_each density_body l (s, acc) =
          Some (s', fold_left f32_add (densityField_eval s <$> l) acc) ∧
        agree_on erase_force_density s s' ∧
        ∀ a, heap s' !! a =
             (λ p, if bool_decide (a ∈ l)
                   then set_density p (densityField_eval s a) else p)
               <$> heap s !! a.
Proof.
  induction l as [|a l IH] using rev_ind; intros Hvalid.
  - exists s. split_and!; [done|apply agree_on_refl|]. intros a.
    by destruct (heap s !! a) as [p|].
  - destruct IH as (s1 & Hrun & Hagree & Hheap).
    { intros a' Ha'. apply Hvalid, elem_of_app. by left. }
    rewrite for_each_app, Hrun. simpl.
    destruct (Hvalid a) as [p0 Hp0]; [apply elem_of_app; right; by left|].
    pose proof (Hheap a) as Hp1. rewrite Hp0 in Hp1. simpl in Hp1.
    unfold load. rewrite Hp1. simpl.
    rewrite (density_blind s s1 a Hagree).
    eexists. split_and!.
    + by rewrite fmap_app, fold_left_app.
    + eapply agree_on_trans; [exact Hagree|].
      eapply agree_on_store; [exact Hp1|]. by destruct (bool_decide _).
    + intros a'. simpl. destruct (decide (a = a')) as [<-|Hne].
      * rewrite lookup_insert_eq, Hp0. simpl. f_equal.
        rewrite bool_decide_snoc_eq. by destruct (bool_decide _).
      * rewrite lookup_insert_ne by done. rewrite Hheap.
        destruct (heap s !! a') as [p'|]; simpl; [|done].
        by rewrite bool_decide_snoc_ne.
Qed.

Lemma computeDerivative_spec s :
  valid_particles s →
  ∃ dst, computeDerivative s = Some dst ∧ length dst = length (particles s) * 6 ∧
         ∀ i a p, particle_at s i = Some (a, p) → read_block dst i = Some (deriv_block p).
Proof. intros Hv. by apply (fill_loop deriv_block). Qed.

(** The System when the Force loop of [computeForces] starts. *)
Lemma computeDensityPressure_spec s :
  valid_particles s →
  ∃ s2, (s1 ← clearForces s; computeDensityPressure s1) = Some (s2, mean_density s) ∧
        particles s2 = particles s ∧ forces s2 = forces s ∧
        time s2 = time s ∧ dt s2 = dt s ∧
        ∀ a, heap s2 !! a =
             (λ p, if bool_decide (a ∈ particles s) then prepared s a p else p)
               <$> heap s !! a.
Proof.
  intros Hv.
  assert (∀ a, a ∈ particles s → is_Some (heap s !! a)) as Hvalid.
  { intros a Ha. apply list_elem_of_lookup in Ha as [i Hi].
    by eapply valid_particles_lookup. }
  destruct (clearForces_spec s Hv) as (s1 & -> & Hps1 & Hfs1 & Ht1 & Hdt1 & Hh1).
  simpl. unfold computeDensityPressure. rewrite Hps1.
  assert (agree_on erase_force_density s s1) as Hagree.
  { split_and!; try done. intros a. rewrite Hh1.
    destruct (heap s !! a) as [p|]; simpl; [|done]. by destruct (bool_decide _). }
  destruct (density_loop_spec (particles s) s1 (f32_of_Z 0))
    as (sd & -> & (Hpsd & Hfsd & Htd & Hdtd & _) & Hhd).
  { intros a Ha. eapply fmap_is_Some_lookup; [apply Hh1|auto]. }
  simpl. rewrite Hpsd, Hps1.
  rewrite (list_fmap_ext (densityField_eval s1) (densityField_eval s) (particles s))
    by (intros i a _; by apply density_blind).
  fold (mean_density s).
  destruct (pressure_loop_spec lit_0_1f (mean_density s) (particles s) sd)
    as (s2 & -> & Hps2 & Hfs2 & Ht2 & Hdt2 & Hh2).
  { intros a Ha. eapply fmap_is_Some_lookup; [apply Hhd|].
    eapply fmap_is_Some_lookup; [apply Hh1|auto]. }
  simpl. exists s2. split_and!; [done|congruence..|].
  intros a. rewrite Hh2, Hhd, Hh1, (density_blind s s1 a Hagree).
  destruct (heap s !! a) as [p|]; simpl; [|done].
  by destruct (bool_decide _).
Qed.

(** C3: for a System whose particle pointers are valid and a Density field
    that reads neither force accumulators nor densities, [derivEval] first
    brings every particle of the System to: force accumulator zero, density
    as given by the Density field, pressure [0.1f * (density - restDensity)]
    with [restDensity] the sum of the densities divided by the particle
    count; it then runs [apply] of the registered forces in registration
    order from that System; and when they return [s3], it returns the vector
    of length 6N whose block for particle [i] is the velocity of the particle
    followed by its force divided by its density, both as found in [s3]. *)
Theorem derivEval_pipeline (s : System) :
  valid_particles s →
  ∃ s2, (s1 ← clearForces s; computeDensityPressure s1) = Some (s2, mean_density s) ∧
    particles s2 = particles s ∧ forces s2 = forces s ∧
    time s2 = time s ∧ dt s2 = dt s ∧
    (∀ a, heap s2 !! a =
          (λ p, if bool_decide (a ∈ particles s) then prepared s a p else p)
            <$> heap s !! a) ∧
    ∀ s3, for_each Force_apply (forces s) s2 = Some s3 → valid_particles s3 →
      ∃ dst, derivEval s = Some (s3, dst) ∧
             length dst = length (particles s3) * 6 ∧
             ∀ i a p, particles s3 !! i = Some a → heap s3 !! a = Some p →
                      read_block dst i = Some (deriv_block p).
Proof.
  intros Hv.
  destruct (computeDensityPressure_spec s Hv) as (s2 & Hrun & Hps & Hfs & Ht & Hdt & Hh).
  exists s2. split_and!; [done..|]. intros s3 Hforces Hv3.
  destruct (computeDerivative_spec s3 Hv3) as (dst & Hdst & Hlen & Hblocks).
  exists dst. split_and!; [|done|].
  - unfold derivEval, computeForces, applyForces.
    destruct (clearForces s) as [s1|]; simpl in *; [|done].
    rewrite Hrun. simpl. rewrite Hfs, Hforces. simpl. by rewrite Hdst.
  - intros i a p Ha Hp. apply (Hblocks i a). by apply particle_at_Some.
Qed.

End DerivEval.

Section NoParticles.
Context {env : Collaborators}.

(** C4 (amended): with zero particles [derivEval] does not skip the force
    computation.  The particle loops run zero times, [restDensity] is
    computed as [0.0f / 0], which is a NaN and is used by no particle, the
    [apply] of every registered force is run in registration order, and the
    derivative vector is built from the System that the forces leave (the
    empty vector when they leave the particle vector empty). *)
Theorem derivEval_no_particles (s : System) :
  particles s = [] →
  clearForces s = Some s ∧
  computeDensityPressure s = Some (s, S754_nan) ∧
  derivEval s =
    (s' ← for_each Force_apply (forces s) s;
     dst ← computeDerivative s'; Some (s', dst)) ∧
  ∀ s', for_each Force_apply (forces s) s = Some s' → particles s' = [] →
        derivEval s = Some (s', []).
Proof.
  intros Hnil.
  assert (clearForces s = Some s) as Hclear.
  { unfold clearForces. by rewrite Hnil. }
  assert (computeDensityPressure s = Some (s, S754_nan)) as Hdp.
  { unfold computeDensityPressure. rewrite Hnil. simpl. rewrite Hnil. reflexivity. }
  assert (derivEval s =
            (s' ← for_each Force_apply (forces s) s;
             dst ← computeDerivative s'; Some (s', dst))) as Hderiv.
  { unfold derivEval, computeForces, applyForces. rewrite Hclear. simpl.
    rewrite Hdp. simpl. by destruct (for_each Force_apply (forces s) s). }
  split_and!; [done..|].
  intros s' Hforces Hnil'. rewrite Hderiv, Hforces. simpl.
  unfold computeDerivative, getDim. by rewrite Hnil'.
Qed.

End NoParticles.

(** ** The adaptive step *)

Lemma anchored_refl s : anchored s s.
Proof. split; [done|]. intros a p Hp. eauto. Qed.

Lemma anchored_trans s1 s2 s3 : anchored s1 s2 → anchored s2 s3 → anchored s1 s3.
Proof.
  intros [Hp12 H12] [Hp23 H23]. split; [congruence|].
  intros a p Hp. destruct (H12 a p Hp) as (p2 & Hp2 & Hm2 & Hfix2).
  destruct (H23 a p2 Hp2) as (p3 & Hp3 & Hm3 & Hfix3).
  exists p3. split_and!; [done|congruence|].
  intros Hm. destruct (Hfix2 Hm) as [<- <-]. apply Hfix3. congruence.
Qed.

Lemma immovable_kept_anchored s s' : immovable_kept s s' → anchored s s'.
Proof.
  intros [Hps Hk]. split; [done|]. intros a p Hp.
  destruct (Hk a p Hp) as (p' & Hp' & Hm & Hfix).
  exists p'. split_and!; [done..|]. by intros ->%Hfix.
Qed.

Lemma kinematics_anchored s s' : agree_on kinematics s s' → anchored s s'.
Proof.
  intros Hagree. split; [apply Hagree|]. intros a p Hp.
  destruct (agree_on_lookup _ _ _ _ _ Hagree Hp) as (p' & Hp' & Hkin).
  exists p'. injection Hkin as Hpos Hvel Hmov. by split_and!.
Qed.

Lemma valid_particles_anchored s s' :
  anchored s s' → valid_particles s → valid_particles s'.
Proof.
  intros [Hps Hk] Hv. unfold valid_particles in *. rewrite Hps.
  eapply Forall_impl; [exact Hv|]. intros a [p Hp].
  destruct (Hk a p Hp) as (p' & -> & _). eauto.
Qed.

(** A loop of steps that each agree on [proj] agrees on [proj]. *)
Lemma for_each_agree {A X} (proj : Particle → A)
  (body : X → System → option System) l s s' :
  (∀ x s s', body x s = Some s' → agree_on proj s s') →
  for_each body l s = Some s' → agree_on proj s s'.
Proof.
  intros Hbody. apply for_each_preserves; [|apply agree_on_refl].
  intros x s1 s2 _ Hagree Hstep.
  eapply agree_on_trans; [exact Hagree|by eapply Hbody].
Qed.

Lemma setState2_dt s src t s' : setState2 s src t = Some s' → dt s' = dt s.
Proof.
  unfold setState2, for_range. intros Hs'.
  destruct (for_each _ _ s) as [s1|] eqn:Hloop; simpl in Hs'; [|done].
  injection Hs' as <-. simpl.
  revert Hloop. apply (for_each_preserves (λ s', dt s' = dt s)); [|done].
  intros i s2 s3 _ <-. unfold setState_body.
  destruct (particle_at s2 i) as [[a p]|]; simpl; [|done].
  destruct (movable p); [|by intros [= <-]].
  destruct (vec_get src (i * 6 + 0)); simpl; [|done].
  destruct (vec_get src (i * 6 + 1)); simpl; [|done].
  destruct (vec_get src (i * 6 + 2)); simpl; [|done].
  destruct (vec_get src (i * 6 + 3)); simpl; [|done].
  destruct (vec_get src (i * 6 + 4)); simpl; [|done].
  destruct (vec_get src (i * 6 + 5)); simpl; [|done].
  by intros [= <-].
Qed.

(** The frame condition on the outside forces, spelled out. *)
Lemma other_forces_keep_kinematics_spelled {env : Collaborators} :
  other_forces_keep_kinematics ↔
  ∀ tag s s', other_apply tag s = Some s' →
    particles s' = particles s ∧ forces s' = forces s ∧
    time s' = time s ∧ dt s' = dt s ∧
    ∀ a, match heap s !! a, heap s' !! a with
         | Some p, Some p' =>
             position p' = position p ∧ velocity p' = velocity p ∧
             movable p' = movable p
         | None, None => True
         | _, _ => False
         end.
Proof.
  split; intros Hk tag s s' Hrun;
    destruct (Hk tag s s' Hrun) as (Hps & Hfs & Ht & Hdt & Hh);
    split_and!; try done; intros a; specialize (Hh a);
    destruct (heap s !! a) as [p|], (heap s' !! a) as [p'|]; simpl in *; try done.
  - by injection Hh as -> -> ->.
  - destruct Hh as (Hpos & Hvel & Hmov). unfold kinematics. by rewrite Hpos, Hvel, Hmov.
Qed.

Section DerivEvalFrame.
Context {env : Collaborators}.
Hypothesis others_keep : other_forces_keep_kinematics.

Lemma clearForces_kinematics s s' :
  clearForces s = Some s' → agree_on kinematics s s'.
Proof.
  unfold clearForces. apply for_each_agree. intros a s1 s2.
  unfold load. destruct (heap s1 !! a) as [p|] eqn:Hp; simpl; [|done].
  intros [= <-]. by apply (agree_on_store _ _ _ p).
Qed.

Lemma density_loop_kinematics l s acc s' acc' :
  for_each density_body l (s, acc) = Some (s', acc') → agree_on kinematics s s'.
Proof.
  intros Hrun.
  apply (for_each_preserves (λ st, agree_on kinematics s (fst st))
           density_body l (s, acc) (s', acc')); [|apply agree_on_refl|done].
  intros a [s1 acc1] [s2 acc2] _ Hagree. simpl in *.
  unfold load. destruct (heap s1 !! a) as [p|] eqn:Hp; simpl; [|done].
  intros [= <- _]. eapply agree_on_trans; [exact Hagree|].
  by apply (agree_on_store _ _ _ p).
Qed.

Lemma pressure_loop_kinematics k rest l s s' :
  for_each (pressure_body k rest) l s = Some s' → agree_on kinematics s s'.
Proof.
  apply for_each_agree. intros a s1 s2. unfold pressure_body, load.
  destruct (heap s1 !! a) as [p|] eqn:Hp; simpl; [|done].
  intros [= <-]. by apply (agree_on_store _ _ _ p).
Qed.

Lemma Force_apply_kinematics f s s' :
  Force_apply f s = Some s' → agree_on kinematics s s'.
Proof.
  destruct f as [targets|targets|tag]; simpl.
  - apply for_each_agree. intros a s1 s2. unfold viscosity_body, load.
    destruct (heap s1 !! a) as [p|] eqn:Hp; simpl; [|done].
    destruct (viscosity_neighbours _ _ _ _); simpl; [|done].
    intros [= <-]. by apply (agree_on_store _ _ _ p).
  - apply for_each_agree. intros a s1 s2. unfold surface_body, load.
    destruct (heap s1 !! a) as [p|] eqn:Hp; simpl; [|done].
    destruct (f32_lt _ _); intros [= <-]; [|apply agree_on_refl].
    by apply (agree_on_store _ _ _ p).
  - apply others_keep.
Qed.

Lemma derivEval_kinematics s s' dst :
  derivEval s = Some (s', dst) → agree_on kinematics s s'.
Proof.
  unfold derivEval, computeForces, computeDensityPressure, applyForces.
  destruct (clearForces s) as [s1|] eqn:H1; simpl; [|done].
  destruct (for_each density_body _ _) as [[s2 acc]|] eqn:H2; simpl; [|done].
  destruct (for_each (pressure_body _ _) _ _) as [s3|] eqn:H3; simpl; [|done].
  destruct (for_each Force_apply _ _) as [s4|] eqn:H4; simpl; [|done].
  destruct (computeDerivative s4); simpl; [|done]. intros [= <- _].
  eapply agree_on_trans; [by apply clearForces_kinematics|].
  eapply agree_on_trans; [by eapply density_loop_kinematics|].
  eapply agree_on_trans; [by eapply pressure_loop_kinematics|].
  revert H4. apply for_each_agree. apply Force_apply_kinematics.
Qed.

(** Whatever a Solver within the contract does, the immovable particles stay
    where they are and no particle appears, disappears or changes its flag. *)
Lemma solver_trace_anchored s s' : solver_trace s s' → anchored s s'.
Proof.
  induction 1 as [s|s src t s1 s2 Hset _ IH|s dst s1 s2 Hderiv _ IH].
  - apply anchored_refl.
  - eapply anchored_trans; [|exact IH].
    by eapply immovable_kept_anchored, setState2_kept.
  - eapply anchored_trans; [|exact IH].
    by eapply kinematics_anchored, derivEval_kinematics.
Qed.

End DerivEvalFrame.

(** Two vectors of [n] blocks with the same blocks are the same vector. *)
Lemma blocks_eq n (r r' : VectorXf) :
  length r = n * 6 → length r' = n * 6 →
  (∀ i, i < n → read_block r i = read_block r' i) → r = r'.
Proof.
  intros Hlen Hlen' Hblocks. apply list_eq. intros k.
  destruct (decide (k < n * 6)) as [Hk|Hk].
  - pose proof (Nat.div_mod_eq k 6) as Hdm.
    pose proof (Nat.mod_upper_bound k 6) as Hc.
    assert (k `div` 6 < n) as Hi by (apply Nat.Div0.div_lt_upper_bound; lia).
    destruct (read_block_is_Some r (k `div` 6)) as [b Hb]; [lia|].
    pose proof Hb as Hb'. rewrite (Hblocks _ Hi) in Hb'.
    apply read_block_inv in Hb as (H0 & H1 & H2 & H3 & H4 & H5).
    apply read_block_inv in Hb' as (H0' & H1' & H2' & H3' & H4' & H5').
    assert (k = k `div` 6 * 6 + k `mod` 6) as -> by lia.
    destruct (k `mod` 6) as [|[|[|[|[|[|c]]]]]]; [congruence..|lia].
  - by rewrite !lookup_ge_None_2 by lia.
Qed.

Lemma rescale_dt_heap {env : Collaborators} err s :
  heap (rescale_dt err s) = heap s ∧ particles (rescale_dt err s) = particles s.
Proof. unfold rescale_dt. by destruct (f32_lt _ _). Qed.

Lemma is_zero_not_positive err : is_zero err = true → f32_lt (f32_of_Z 0) err = false.
Proof. by destruct err. Qed.

Section Step.
Context {env : Collaborators} {solver : Solver}.

(** The trial part, step by step. *)
Lemma step_trials_inv s s1 before xa xb :
  step_trials s = Some (s1, before, xa, xb) ↔
  ∃ sa sb sc,
    getState s = Some before ∧
    simulateStep s (dt s) = Some sa ∧
    getState sa = Some xa ∧
    setState sa before = Some sb ∧
    simulateStep sb (f32_div (dt sb) (f32_of_Z 2)) = Some sc ∧
    simulateStep sc (f32_div (dt sc) (f32_of_Z 2)) = Some s1 ∧
    getState s1 = Some xb.
Proof.
  unfold step_trials. split.
  - destruct (getState s) as [before'|] eqn:E1; simpl; [|done].
    destruct (simulateStep s (dt s)) as [sa|] eqn:E2; simpl; [|done].
    destruct (getState sa) as [xa'|] eqn:E3; simpl; [|done].
    destruct (setState sa before') as [sb|] eqn:E4; simpl; [|done].
    destruct (simulateStep sb _) as [sc|] eqn:E5; simpl; [|done].
    destruct (simulateStep sc _) as [s1'|] eqn:E6; simpl; [|done].
    destruct (getState s1') as [xb'|] eqn:E7; simpl; [|done].
    intros [= <- <- <- <-]. by exists sa, sb, sc.
  - intros (sa & sb & sc & Hb & Hsa & Hxa & Hsb & Hsc & Hs1 & Hxb).
    rewrite Hb. simpl. rewrite Hsa. simpl. rewrite Hxa. simpl.
    rewrite Hsb. simpl. rewrite Hsc. simpl. rewrite Hs1. simpl. by rewrite Hxb.
Qed.

(** C5: in an adaptive step, with [xa] the state after one trial step of
    size [dt] and [xb] the state after two trial steps of size [dt / 2] from
    the restored snapshot, the local error is the norm of [xa - xb]; the
    accepted step is the Solver run after restoring the snapshot, with the
    step size [dt * pow(0.001f / err, .5f)] if [err > 0] and the unchanged
    step size otherwise; for an error that is zero the System is not touched
    by the rescaling at all. *)
Theorem step_adaptive_rescales (s sa sb sc s1 : System) (before xa xb d : VectorXf) :
  getState s = Some before →
  simulateStep s (dt s) = Some sa →
  getState sa = Some xa →
  setState sa before = Some sb →
  simulateStep sb (f32_div (dt sb) (f32_of_Z 2)) = Some sc →
  simulateStep sc (f32_div (dt sc) (f32_of_Z 2)) = Some s1 →
  getState s1 = Some xb →
  vec_sub xa xb = Some d →
  let err := vec_norm d in
  local_error xa xb = Some err ∧
  step true s = (s2 ← setState (rescale_dt err s1) before; simulateStep s2 (dt s2)) ∧
  (∀ s2, setState (rescale_dt err s1) before = Some s2 →
     (f32_lt (f32_of_Z 0) err = true →
        dt s2 = f32_mul (dt s1) (powf (f32_div lit_0_001f err) lit_0_5f)) ∧
     (f32_lt (f32_of_Z 0) err = false → dt s2 = dt s1)) ∧
  (is_zero err = true →
     f32_lt (f32_of_Z 0) err = false ∧ rescale_dt err s1 = s1).
Proof.
  intros Hbefore Hsa Hxa Hsb Hsc Hs1 Hxb Hd err.
  assert (step_trials s = Some (s1, before, xa, xb)) as Htrials.
  { apply step_trials_inv. by exists sa, sb, sc. }
  assert (local_error xa xb = Some err) as Herr.
  { unfold local_error. by rewrite Hd. }
  split_and!; [done| | |].
  - unfold step, step_adaptive_prefix. rewrite Htrials. simpl. by rewrite Herr.
  - intros s2 Hs2. apply setState2_dt in Hs2. rewrite Hs2. unfold rescale_dt.
    split; by intros ->.
  - intros Hzero. pose proof (is_zero_not_positive err Hzero) as Hnp.
    split; [done|]. unfold rescale_dt. by rewrite Hnp.
Qed.

Hypothesis others_keep : other_forces_keep_kinematics.
Hypothesis solver_ok : solver_contract.

Lemma simulateStep_anchored s h s' : simulateStep s h = Some s' → anchored s s'.
Proof. intros Hstep. by eapply solver_trace_anchored, solver_ok. Qed.

(** C6 (amended): for a Solver that changes the System only through
    [setState] and [derivEval], and Force subclasses outside the sources whose
    [apply] writes nothing but force accumulators, densities, pressures and
    masses (it leaves the particle vector, the force list, the clock, [dt],
    the set of particle objects and every position, velocity and movable
    flag unchanged), the System right before the final accepted Solver
    invocation of an adaptive step has the particle vector of the start,
    every particle of the System has the position and the velocity it had at
    the start, and [getState] gives the snapshot again. *)
Theorem step_adaptive_restores (s s1 : System) :
  valid_particles s →
  step_adaptive_prefix s = Some s1 →
  particles s1 = particles s ∧
  getState s1 = getState s ∧
  ∀ a p, a ∈ particles s → heap s !! a = Some p →
    ∃ p1, heap s1 !! a = Some p1 ∧
          position p1 = position p ∧ velocity p1 = velocity p.
Proof.
  intros Hv. unfold step_adaptive_prefix.
  destruct (step_trials s) as [[[[s2 before] xa] xb]|] eqn:Htrials; simpl; [|done].
  destruct (local_error xa xb) as [err|]; simpl; [|done]. intros Hset.
  apply step_trials_inv in Htrials
    as (sa & sb & sc & Hbefore & Hsa & _ & Hsb & Hsc & Hs2 & _).
  set (sr := rescale_dt err s2) in *.
  destruct (rescale_dt_heap err s2) as [Hheap_r Hps_r]. fold sr in Hheap_r, Hps_r.
  assert (anchored s s2) as Hanch.
  { eapply anchored_trans; [by eapply simulateStep_anchored|].
    eapply anchored_trans; [by eapply immovable_kept_anchored, setState2_kept|].
    eapply anchored_trans; by eapply simulateStep_anchored. }
  assert (anchored s sr) as Hanch_r.
  { destruct Hanch as [Hps Hk]. split; [congruence|]. by rewrite Hheap_r. }
  pose proof (valid_particles_anchored _ _ Hanch_r Hv) as Hv_r.
  destruct (getState_snapshot s Hv) as (r & Hr & Hlen & Hblocks).
  assert (r = before) as -> by congruence.
  destruct (setState2_written sr before (getTime sr) (snapshot_block s) Hv_r)
    as (s1' & Hset' & Hps1 & _ & _ & _ & Hheap1).
  { intros i a Ha. apply (Hblocks i a). by rewrite <- (proj1 Hanch_r). }
  assert (s1' = s1) as -> by (unfold setState in Hset; congruence).
  assert (particles s1 = particles s) as Hps by (rewrite Hps1; apply Hanch_r).
  assert (∀ a p, a ∈ particles s → heap s !! a = Some p →
            ∃ p1, heap s1 !! a = Some p1 ∧
                  position p1 = position p ∧ velocity p1 = velocity p) as Hkin.
  { intros a p Ha Hp. destruct Hanch_r as [Hps_sr Hk].
    destruct (Hk a p Hp) as (pr & Hpr & Hm & Hfix).
    exists (written (snapshot_block s) (particles sr) a pr).
    rewrite Hheap1, Hpr. split; [done|]. unfold written, snapshot_block.
    rewrite Hp, Hm, Hps_sr, (bool_decide_eq_true_2 _ Ha).
    destruct (movable p) eqn:Hmp; simpl.
    - by destruct (position p), (velocity p).
    - by apply Hfix. }
  split_and!; [done| |done].
  assert (valid_particles s1) as Hv1.
  { eapply valid_particles_anchored; [|exact Hv_r].
    by eapply immovable_kept_anchored, setState2_kept. }
  destruct (getState_spec s1 Hv1) as (r1 & Hr1 & Hlen1 & Hblocks1).
  rewrite Hr1, Hr. f_equal.
  apply (blocks_eq (length (particles s))); [by rewrite Hlen1, Hps|done|].
  intros i Hi.
  destruct (lookup_lt_is_Some_2 (particles s) i Hi) as [a Ha].
  destruct (valid_particles_lookup _ _ _ Hv Ha) as [p Hp].
  destruct (Hkin a p) as (p1 & Hp1 & Hpos & Hvel);
    [by eapply list_elem_of_lookup_2|done|].
  rewrite (Hblocks i a Ha).
  rewrite (Hblocks1 i a p1) by (apply particle_at_Some; by rewrite Hps).
  unfold snapshot_block, state_block. by rewrite Hp, Hpos, Hvel.
Qed.

End Step.

(** ** The concrete scene *)

Ltac scene_valid :=
  repeat (constructor; [eexists; vm_compute; reflexivity|]); constructor.

Lemma scene_density_blind : force_density_blind (@densityField_eval scene).
Proof.
  intros s s' a (_ & _ & _ & _ & Hh). simpl. specialize (Hh a).
  destruct (heap s' !! a) as [p'|], (heap s !! a) as [p|]; simpl in *; try done.
  by injection Hh.
Qed.

Lemma scene_dEval_blind : force_blind (@colorField_dEval scene).
Proof. by intros s s' pos _. Qed.

Lemma scene_ddEval_blind : force_blind (@colorField_ddEval scene).
Proof. by intros s s' pos _. Qed.

Lemma gravity_keeps_kinematics : @other_forces_keep_kinematics scene.
Proof.
  intros tag s s'. simpl. unfold gravity_apply. apply for_each_agree.
  intros a s1 s2. unfold load.
  destruct (heap s1 !! a) as [p|] eqn:Hp; simpl; [|done].
  intros [= <-]. by apply (agree_on_store _ _ _ p).
Qed.

(** The Euler scheme is within the Solver contract, for any collaborators. *)
Lemma euler_contract (C : Collaborators) : @solver_contract C (euler C).
Proof.
  intros s h s'. simpl. unfold euler_step.
  destruct (getState s) as [x|]; simpl; [|done].
  destruct (derivEval s) as [[s1 dx]|] eqn:Hderiv; simpl; [|done].
  intros Hset.
  eapply trace_derivEval; [exact Hderiv|].
  eapply trace_setState; [exact Hset|]. apply trace_done.
Qed.

(** ** Runs of the model *)

(** C1: a particle that leaves through the low Z wall with Z velocity -1 and
    X velocity 0.5 comes back with Z clamped to -0.2f and with Z velocity
    -0.5, the negated X velocity, where the negated Z velocity is +1. *)
Theorem checkCollisions_z_exit_takes_x_velocity :
  checkCollisions 1 z_exit_state =
    Some [f32_zero; f32_zero; f32_neg lit_0_2f; lit_0_5f; f32_zero; f32_neg lit_0_5f] ∧
  z_exit_state !! 5 = Some (f32_neg f32_one) ∧
  f32_neg lit_0_5f ≠ f32_neg (f32_neg f32_one).
Proof. split_and!; [vm_compute; reflexivity..|by vm_compute]. Qed.

(** C2: for a target with the three neighbours 0, 1 and 2, whose terms are
    (0,0,0), (1,0,0) and (2,0,0), [ViscosityForce::apply] adds 100 times the
    term of the last neighbour, (200,0,0), and not 100 times the sum of the
    three terms, (300,0,0). *)
Theorem ViscosityForce_last_neighbour_only :
  @grid_query scene shear_system (v3_of_Z 0 0 0) = [0; 1; 2] ∧
  (s' ← @ViscosityForce_apply scene [0] shear_system; force <$> heap s' !! 0)
    = Some (v3_of_Z 200 0 0) ∧
  (p0 ← shear_heap !! 0;
   terms ← mapM (λ aj, pj ← shear_heap !! aj; Some (@viscosity_term scene p0 pj))
                [0; 1; 2];
   Some (v3_add (force p0) (v3_scale lit_100f (foldl v3_add v3_zero terms))))
    = Some (v3_of_Z 300 0 0).
Proof. split_and!; vm_compute; reflexivity. Qed.

(** Counterexample to C4 as stated: in a System without particles [derivEval] divides by
    the zero particle count, which gives a NaN, and still runs the forces;
    here the surface-tension force pushes its target. *)
Lemma derivEval_empty_runs_forces :
  particles empty_system = [] ∧
  f32_div (f32_of_Z 0) (size_to_float (length (particles empty_system))) = S754_nan ∧
  @computeDensityPressure scene empty_system = Some (empty_system, S754_nan) ∧
  force <$> heap empty_system !! 7 = Some (v3_of_Z 0 0 0) ∧
  ('(s', dst) ← @derivEval scene empty_system; p ← heap s' !! 7; Some (force p, dst))
    = Some (Vec3 (f32_neg lit_72_75f) f32_zero f32_zero, []).
Proof. split_and!; vm_compute; reflexivity. Qed.

(** Counterexample to C6 as stated: with the Euler scheme and no force, the particles
    drift along straight lines, the two trial states agree and [dt] is not
    rescaled, yet the adaptive step leaves the clock at 0.75 where the
    accepted step alone leaves it at 0.25: the trial steps have advanced the
    clock to 0.5 before the accepted step starts. *)
Lemma step_trials_advance_clock :
  @solver_contract scene (euler scene) ∧
  time drifting_system = f32_zero ∧ dt drifting_system = f32_quarter ∧
  time <$> @step_adaptive_prefix scene (euler scene) drifting_system
    = Some lit_0_5f ∧
  dt <$> @step_adaptive_prefix scene (euler scene) drifting_system
    = Some f32_quarter ∧
  time <$> @step scene (euler scene) true drifting_system
    = Some (f32_add lit_0_5f f32_quarter) ∧
  time <$> @step scene (euler scene) false drifting_system
    = Some f32_quarter ∧
  @step scene (euler scene) true drifting_system
    ≠ @step scene (euler scene) false drifting_system.
Proof.
  split_and!; [apply euler_contract|vm_compute; reflexivity..|].
  intros Heq. apply (f_equal (fmap time)) in Heq. vm_compute in Heq. discriminate.
Qed.

(** Counterexample to C10 as stated: a NaN abscissa passes both X comparisons and is
    returned as it is, outside [-0.2f, 0.2f]. *)
Lemma checkCollisions_nan_position :
  length nan_state = 1 * 6 ∧
  checkCollisions 1 nan_state = Some nan_state ∧
  (b ← read_block nan_state 0; Some (in_side_range (b0 b))) = Some false.
Proof. split_and!; vm_compute; reflexivity. Qed.

(** ** The theorems on the concrete scene *)

(** Names the value of a run that returns. *)
Ltac run_as name t :=
  let v := eval vm_compute in t in
  match v with Some ?x => pose (name := x) end.

Lemma setState_getState_roundtrip_witness :
  valid_particles shear_system ∧
  ∃ r, getState shear_system = Some r ∧ setState shear_system r = Some shear_system.
Proof.
  assert (valid_particles shear_system) as Hv by scene_valid.
  split; [exact Hv|]. exact (setState_getState_roundtrip shear_system Hv).
Defined.

Lemma setState_immovable_unchanged_witness :
  valid_particles shear_system ∧
  length (particles shear_system) * 6 ≤ length (replicate 18 f32_one) ∧
  ∃ s1 s2, setState shear_system (replicate 18 f32_one) = Some s1 ∧
           setState2 shear_system (replicate 18 f32_one) f32_one = Some s2 ∧
           heap s1 !! 2 = shear_heap !! 2 ∧ heap s2 !! 2 = shear_heap !! 2.
Proof.
  assert (valid_particles shear_system) as Hv by scene_valid.
  assert (length (particles shear_system) * 6 ≤ length (replicate 18 f32_one))
    as Hlen by (vm_compute; reflexivity).
  split; [exact Hv|]. split; [exact Hlen|].
  destruct (setState_immovable_unchanged shear_system (replicate 18 f32_one)
              f32_one Hv Hlen) as (s1 & s2 & Hs1 & Hs2 & Hfix).
  exists s1, s2. split; [exact Hs1|]. split; [exact Hs2|].
  apply (Hfix 2 (particle_at_rest (v3_of_Z 2 0 0) (v3_of_Z 2 0 0) false));
    vm_compute; reflexivity.
Defined.

Lemma derivEval_pipeline_witness :
  force_density_blind (@densityField_eval scene) ∧
  valid_particles falling_system ∧
  ∃ s2, (s1 ← @clearForces falling_system; @computeDensityPressure scene s1)
          = Some (s2, @mean_density scene falling_system) ∧
        particles s2 = particles falling_system.
Proof.
  assert (valid_particles falling_system) as Hv by scene_valid.
  split; [exact scene_density_blind|]. split; [exact Hv|].
  destruct (@derivEval_pipeline scene scene_density_blind falling_system Hv)
    as (s2 & Hrun & Hps & _).
  exists s2. split; [exact Hrun|exact Hps].
Defined.

Lemma derivEval_no_particles_witness :
  particles empty_system = [] ∧
  @computeDensityPressure scene empty_system = Some (empty_system, S754_nan).
Proof.
  split; [reflexivity|].
  exact (proj1 (proj2 (@derivEval_no_particles scene empty_system eq_refl))).
Defined.

Lemma SurfaceForce_apply_threshold_witness :
  force_blind (@colorField_dEval scene) ∧ force_blind (@colorField_ddEval scene) ∧
  ∃ s', @SurfaceForce_apply scene [1; 2] falling_system = Some s' ∧
        agree_on erase_force falling_system s'.
Proof.
  split; [exact scene_dEval_blind|]. split; [exact scene_ddEval_blind|].
  destruct (@SurfaceForce_apply_threshold scene [1; 2] falling_system
              scene_dEval_blind scene_ddEval_blind) as (s' & Hrun & Hagree & _).
  - intros a Ha.
    repeat (apply elem_of_cons in Ha as [->|Ha]; [eexists; vm_compute; reflexivity|]).
    by apply elem_of_nil in Ha.
  - exists s'. split; [exact Hrun|exact Hagree].
Defined.

Lemma checkCollisions_container_witness :
  length corner_state = 1 * 6 ∧
  ∃ v', checkCollisions 1 corner_state = Some v' ∧ length v' = 1 * 6.
Proof.
  split; [reflexivity|].
  destruct (checkCollisions_container 1 corner_state eq_refl)
    as (v' & Hrun & Hlen & _).
  - intros i b Hb. destruct i as [|i].
    + vm_compute in Hb. injection Hb as <-. by vm_compute.
    + apply read_block_length in Hb. simpl in Hb. lia.
  - exists v'. split; [exact Hrun|exact Hlen].
Defined.

Lemma step_adaptive_restores_witness :
  @other_forces_keep_kinematics scene ∧ @solver_contract scene (euler scene) ∧
  valid_particles falling_system ∧
  ∃ s1, @step_adaptive_prefix scene (euler scene) falling_system = Some s1 ∧
        getState s1 = getState falling_system.
Proof.
  assert (valid_particles falling_system) as Hv by scene_valid.
  split; [exact gravity_keeps_kinematics|]. split; [exact (euler_contract scene)|].
  split; [exact Hv|].
  run_as s1 (@step_adaptive_prefix scene (euler scene) falling_system).
  assert (@step_adaptive_prefix scene (euler scene) falling_system = Some s1)
    as Hrun by (vm_compute; reflexivity).
  exists s1. split; [exact Hrun|].
  exact (proj1 (proj2 (@step_adaptive_restores scene (euler scene)
                         gravity_keeps_kinematics (euler_contract scene)
                         falling_system s1 Hv Hrun))).
Defined.

Lemma step_adaptive_rescales_witness :
  ∃ s1 s2 err,
    (@step_trials (euler scene) falling_system
       ≫= λ '(s, _, xa, xb), e ← @local_error scene xa xb; Some (s, e))
      = Some (s1, err) ∧
    f32_lt (f32_of_Z 0) err = true ∧
    @step_adaptive_prefix scene (euler scene) falling_system = Some s2 ∧
    dt s2 = f32_mul (dt s1) (@powf scene (f32_div lit_0_001f err) lit_0_5f).
Proof.
  run_as before (getState falling_system).
  run_as st_a (@simulateStep (euler scene) falling_system (dt falling_system)).
  run_as xa (getState st_a).
  run_as st_b (setState st_a before).
  run_as st_c (@simulateStep (euler scene) st_b (f32_div (dt st_b) (f32_of_Z 2))).
  run_as s1 (@simulateStep (euler scene) st_c (f32_div (dt st_c) (f32_of_Z 2))).
  run_as xb (getState s1).
  run_as d (vec_sub xa xb).
  run_as s2 (setState (@rescale_dt scene (@vec_norm scene d) s1) before).
  destruct (@step_adaptive_rescales scene (euler scene)
              falling_system st_a st_b st_c s1 before xa xb d)
    as (Herr & Hstep & Hdt & _); try (vm_compute; reflexivity).
  exists s1, s2, (@vec_norm scene d).
  assert (setState (@rescale_dt scene (@vec_norm scene d) s1) before = Some s2)
    as Hs2 by (vm_compute; reflexivity).
  split; [vm_compute; reflexivity|].
  split; [vm_compute; reflexivity|].
  split; [vm_compute; reflexivity|].
  apply (proj1 (Hdt s2 Hs2)). vm_compute; reflexivity.
Defined.

(** * Further properties of the state vector *)

Lemma for_each_ext {A S} (body body' : A → S → option S) l s :
  (∀ x s, body x s = body' x s) → for_each body l s = for_each body' l s.
Proof.
  intros Hext. revert s. induction l as [|x l IH]; intros s; simpl; [done|].
  rewrite Hext. destruct (body' x s); simpl; auto.
Qed.

(** X1: for a System with valid particle pointers, [getState] returns a
    vector of length [getDim], six slots per particle, in which the slots
    [6i .. 6i+5] are the three position components followed by the three
    velocity components of the particle listed at index [i]. *)
Theorem getState_layout (s : System) :
  valid_particles s →
  ∃ r, getState s = Some r ∧ length r = getDim s ∧
       getDim s = 6 * length (particles s) ∧
    ∀ i a p, particles s !! i = Some a → heap s !! a = Some p →
      r !! (i * 6 + 0) = Some (c0 (position p)) ∧
      r !! (i * 6 + 1) = Some (c1 (position p)) ∧
      r !! (i * 6 + 2) = Some (c2 (position p)) ∧
      r !! (i * 6 + 3) = Some (c0 (velocity p)) ∧
      r !! (i * 6 + 4) = Some (c1 (velocity p)) ∧
      r !! (i * 6 + 5) = Some (c2 (velocity p)).
Proof.
  intros Hv. destruct (getState_spec s Hv) as (r & Hr & Hlen & Hblocks).
  exists r. unfold getDim. split_and!; [done|lia|lia|].
  intros i a p Ha Hp.
  apply (read_block_inv r i (state_block p)), (Hblocks i a).
  by apply particle_at_Some.
Qed.

Lemma getState_layout_witness :
  valid_particles shear_system ∧
  ∃ r, getState shear_system = Some r ∧ length r = 18.
Proof.
  assert (valid_particles shear_system) as Hv by scene_valid.
  split; [exact Hv|].
  destruct (getState_layout shear_system Hv) as (r & Hr & Hlen & _).
  exists r. split; [exact Hr|exact Hlen].
Defined.

Lemma state_block_write_state p b : state_block (write_state p b) = b.
Proof. by destruct b. Qed.

Lemma block_of_lookup src (l : list nat) i a :
  NoDup l → l !! i = Some a → block_of src l a = default (block_of src [] a) (read_block src i).
Proof.
  intros Hnd Hi. unfold block_of.
  assert (list_find (λ x, x = a) l = Some (i, a)) as ->; [|done].
  apply list_find_Some. split_and!; [done..|].
  intros j y Hj Hlt ->. pose proof (NoDup_lookup l i j a Hnd Hi Hj). lia.
Qed.

(** X2: on a System with valid pointers in which no particle is listed
    twice, [setState(src, t)] followed by [getState] gives a vector of the
    length of [src] whose block for a movable particle is the block of [src]
    and whose block for an immovable particle is its old state; when every
    particle is movable, [getState] gives [src] back. *)
Theorem getState_setState (s : System) (src : VectorXf) (t : float) :
  valid_particles s → NoDup (particles s) →
  length src = length (particles s) * 6 →
  ∃ s' r, setState2 s src t = Some s' ∧ getState s' = Some r ∧
    length r = length src ∧
    (∀ i a p b, particles s !! i = Some a → heap s !! a = Some p →
       read_block src i = Some b →
       read_block r i = Some (if movable p then b else state_block p)) ∧
    ((∀ a p, a ∈ particles s → heap s !! a = Some p → movable p = true) → r = src).
Proof.
  intros Hv Hnd Hlen.
  assert (∀ i a, particles s !! i = Some a →
            read_block src i = Some (block_of src (particles s) a)) as Hsrc.
  { intros i a Ha. rewrite (block_of_lookup src _ i a Hnd Ha).
    destruct (read_block_is_Some src i) as [b ->]; [|done].
    apply lookup_lt_Some in Ha. lia. }
  destruct (setState2_written s src t _ Hv Hsrc)
    as (s' & Hset & Hps & _ & _ & _ & Hheap).
  assert (valid_particles s') as Hv'.
  { eapply valid_particles_kept; [by eapply setState2_kept|done]. }
  destruct (getState_spec s' Hv') as (r & Hr & Hlenr & Hblocks).
  assert (∀ i a p b, particles s !! i = Some a → heap s !! a = Some p →
            read_block src i = Some b →
            read_block r i = Some (if movable p then b else state_block p)) as Hread.
  { intros i a p b Ha Hp Hb.
    rewrite (Hblocks i a (written (block_of src (particles s)) (particles s) a p)).
    - unfold written.
      rewrite (bool_decide_eq_true_2 _ (list_elem_of_lookup_2 _ _ _ Ha)), andb_true_r.
      destruct (movable p); [|done].
      rewrite state_block_write_state. rewrite (Hsrc i a Ha) in Hb. congruence.
    - apply particle_at_Some. rewrite Hps, Hheap, Hp. done. }
  exists s', r. split_and!; [done|done|congruence|done|].
  intros Hmov. apply (blocks_eq (length (particles s))); [congruence|done|].
  intros i Hi.
  destruct (lookup_lt_is_Some_2 (particles s) i Hi) as [a Ha].
  destruct (valid_particles_lookup _ _ _ Hv Ha) as [p Hp].
  destruct (read_block_is_Some src i) as [b Hb]; [lia|].
  rewrite (Hread i a p b Ha Hp Hb), Hb.
  by rewrite (Hmov a p (list_elem_of_lookup_2 _ _ _ Ha) Hp).
Qed.

Lemma getState_setState_witness :
  valid_particles shear_system ∧ NoDup (particles shear_system) ∧
  ∃ s' r, setState2 shear_system (replicate 18 f32_one) f32_one = Some s' ∧
          getState s' = Some r ∧ length r = 18.
Proof.
  assert (valid_particles shear_system) as Hv by scene_valid.
  assert (NoDup (particles shear_system)) as Hnd by (vm_compute; by apply NoDup_ListNoDup; repeat constructor; simpl; lia).
  split; [exact Hv|]. split; [exact Hnd|].
  destruct (getState_setState shear_system (replicate 18 f32_one) f32_one Hv Hnd eq_refl)
    as (s' & r & Hset & Hr & Hlen & _).
  exists s', r. split; [exact Hset|]. split; [exact Hr|exact Hlen].
Defined.

Lemma setState_body_dynamics src i s s' :
  setState_body src i s = Some s' → agree_on dynamics s s'.
Proof.
  unfold setState_body. intros Hs'.
  destruct (particle_at s i) as [[a p]|] eqn:Hp; simpl in Hs'; [|done].
  apply particle_at_Some in Hp as [_ Hp].
  destruct (movable p) eqn:Hm; [|injection Hs' as <-; apply agree_on_refl].
  destruct (vec_get src (i * 6 + 0)) as [x0|]; simpl in Hs'; [|done].
  destruct (vec_get src (i * 6 + 1)) as [x1|]; simpl in Hs'; [|done].
  destruct (vec_get src (i * 6 + 2)) as [x2|]; simpl in Hs'; [|done].
  destruct (vec_get src (i * 6 + 3)) as [x3|]; simpl in Hs'; [|done].
  destruct (vec_get src (i * 6 + 4)) as [x4|]; simpl in Hs'; [|done].
  destruct (vec_get src (i * 6 + 5)) as [x5|]; simpl in Hs'; [|done].
  injection Hs' as <-. by apply (agree_on_store _ _ _ p).
Qed.

(** X3: a [setState(src, t)] that returns has set the clock to [t] and has
    left the particle vector, the forces and [dt] alone; no particle object
    has appeared or disappeared, and every particle has kept its force
    accumulator, mass, density, pressure and movable flag. *)
Theorem setState_writes_kinematics_only (s s' : System) (src : VectorXf) (t : float) :
  setState2 s src t = Some s' →
  time s' = t ∧ particles s' = particles s ∧ forces s' = forces s ∧ dt s' = dt s ∧
  ∀ a, dynamics <$> heap s' !! a = dynamics <$> heap s !! a.
Proof.
  unfold setState2, for_range. intros Hs'.
  destruct (for_each _ _ s) as [s1|] eqn:Hloop; simpl in Hs'; [|done].
  injection Hs' as <-.
  assert (agree_on dynamics s s1) as (Hps & Hfs & _ & Hdt & Hh).
  { revert Hloop. apply for_each_agree. apply setState_body_dynamics. }
  by split_and!.
Qed.

Lemma setState_writes_kinematics_only_witness :
  ∃ s', setState2 shear_system (replicate 18 f32_one) f32_one = Some s' ∧
        time s' = f32_one ∧ dt s' = dt shear_system.
Proof.
  run_as s' (setState2 shear_system (replicate 18 f32_one) f32_one).
  assert (setState2 shear_system (replicate 18 f32_one) f32_one = Some s')
    as Hset by (vm_compute; reflexivity).
  destruct (setState_writes_kinematics_only shear_system s' _ _ Hset)
    as (Ht & _ & _ & Hdt & _).
  exists s'. split; [exact Hset|]. split; [exact Ht|exact Hdt].
Defined.

(** * Further properties of the derivative evaluation *)

(** [getState] only reads particle vector, positions and velocities. *)
Lemma getState_agree s s' : agree_on kinematics s s' → getState s' = getState s.
Proof.
  intros (Hps & _ & _ & _ & Hh). unfold getState, getDim, for_range. rewrite Hps.
  apply for_each_ext. intros i r. unfold getState_body, particle_at, load.
  rewrite Hps. destruct (particles s !! i) as [a|]; simpl; [|done].
  specialize (Hh a).
  destruct (heap s' !! a) as [p'|], (heap s !! a) as [p|]; simpl in *; try done.
  by injection Hh as -> -> _.
Qed.

Section DerivEvalMore.
Context {env : Collaborators}.

(** X4: on a System with valid pointers [clearForces] returns; afterwards
    the force accumulator of every particle of the System is the zero
    vector, nothing else in the System has changed, and particle objects
    that are not listed in the System are untouched. *)
Theorem clearForces_zeroes (s : System) :
  valid_particles s →
  ∃ s', clearForces s = Some s' ∧ agree_on erase_force s s' ∧
    (∀ a p', a ∈ particles s → heap s' !! a = Some p' → force p' = v3_zero) ∧
    (∀ a, a ∉ particles s → heap s' !! a = heap s !! a).
Proof.
  intros Hv.
  destruct (clearForces_spec s Hv) as (s' & Hrun & Hps & Hfs & Ht & Hdt & Hh).
  exists s'. split_and!; [done| | |].
  - split_and!; [done..|]. intros a. rewrite Hh.
    destruct (heap s !! a) as [p|]; simpl; [|done]. by destruct (bool_decide _).
  - intros a p' Ha. rewrite Hh, (bool_decide_eq_true_2 _ Ha).
    destruct (heap s !! a) as [p|]; simpl; [|done]. by intros [= <-].
  - intros a Ha. rewrite Hh, (bool_decide_eq_false_2 _ Ha).
    by destruct (heap s !! a).
Qed.

(** X5: [ViscosityForce::apply] changes nothing but force accumulators, and
    only those of its targets: every other particle object is untouched. *)
Theorem ViscosityForce_apply_frame (targets : list nat) (s s' : System) :
  ViscosityForce_apply targets s = Some s' →
  agree_on erase_force s s' ∧
  ∀ a, a ∉ targets → heap s' !! a = heap s !! a.
Proof.
  unfold ViscosityForce_apply. intros Hrun.
  apply (for_each_preserves
           (λ s1, agree_on erase_force s s1 ∧
                  ∀ a, a ∉ targets → heap s1 !! a = heap s !! a)
           viscosity_body targets s s'); [|split; [apply agree_on_refl|done]|done].
  intros x s1 s2 Hx [Hagree Hrest]. unfold viscosity_body, load.
  destruct (heap s1 !! x) as [p|] eqn:Hp; simpl; [|done].
  destruct (viscosity_neighbours _ _ _ _); simpl; [|done].
  intros [= <-]. split.
  - eapply agree_on_trans; [exact Hagree|]. by apply (agree_on_store _ _ _ p).
  - intros a Ha. simpl. rewrite lookup_insert_ne by (intros ->; done). by apply Hrest.
Qed.

Hypothesis others_keep : other_forces_keep_kinematics.

(** X6: when the [apply] of the Force subclasses outside the sources writes
    nothing but force accumulators, densities, pressures and masses (it
    leaves the particle vector, the force list, the clock, [dt], the set of
    particle objects and every position, velocity and movable flag
    unchanged), a [derivEval] that returns has not changed the state vector:
    [getState] gives the same result before and after, and the particle
    vector, the forces, the clock and [dt] are the same. *)
Theorem derivEval_keeps_state (s s' : System) (dst : VectorXf) :
  derivEval s = Some (s', dst) →
  getState s' = getState s ∧ particles s' = particles s ∧
  forces s' = forces s ∧ time s' = time s ∧ dt s' = dt s.
Proof.
  intros Hrun. pose proof (derivEval_kinematics others_keep _ _ _ Hrun) as Hagree.
  split; [by apply getState_agree|]. by destruct Hagree as (? & ? & ? & ? & _).
Qed.

End DerivEvalMore.

Lemma clearForces_zeroes_witness :
  valid_particles falling_system ∧
  ∃ s', clearForces falling_system = Some s' ∧ agree_on erase_force falling_system s'.
Proof.
  assert (valid_particles falling_system) as Hv by scene_valid.
  split; [exact Hv|].
  destruct (clearForces_zeroes falling_system Hv) as (s' & Hrun & Hagree & _).
  exists s'. split; [exact Hrun|exact Hagree].
Defined.

Lemma ViscosityForce_apply_frame_witness :
  ∃ s', @ViscosityForce_apply scene [0] shear_system = Some s' ∧
        heap s' !! 1 = heap shear_system !! 1.
Proof.
  run_as s' (@ViscosityForce_apply scene [0] shear_system).
  assert (@ViscosityForce_apply scene [0] shear_system = Some s')
    as Hrun by (vm_compute; reflexivity).
  exists s'. split; [exact Hrun|].
  apply (proj2 (@ViscosityForce_apply_frame scene [0] shear_system s' Hrun)).
  intros Ha. apply elem_of_cons in Ha as [Ha|Ha]; [discriminate|].
  by apply elem_of_nil in Ha.
Defined.

Lemma derivEval_keeps_state_witness :
  @other_forces_keep_kinematics scene ∧
  ∃ s' dst, @derivEval scene falling_system = Some (s', dst) ∧
            getState s' = getState falling_system.
Proof.
  split; [exact gravity_keeps_kinematics|].
  run_as out (@derivEval scene falling_system).
  assert (@derivEval scene falling_system = Some (out.1, out.2))
    as Hrun by (vm_compute; reflexivity).
  exists out.1, out.2. split; [exact Hrun|].
  exact (proj1 (@derivEval_keeps_state scene gravity_keeps_kinematics
                  falling_system out.1 out.2 Hrun)).
Defined.

(** * Further properties of the collisions *)

(** Two vectors with the same first [n] blocks and the same further slots. *)
Lemma vec_eq_blocks n (r r' : VectorXf) :
  length r = length r' → n * 6 ≤ length r →
  (∀ i, i < n → read_block r i = read_block r' i) →
  (∀ k, n * 6 ≤ k → r !! k = r' !! k) → r = r'.
Proof.
  intros Hlen Hn Hblocks Hrest. apply list_eq. intros k.
  destruct (decide (k < n * 6)) as [Hk|Hk]; [|apply Hrest; lia].
  pose proof (Nat.div_mod_eq k 6) as Hdm.
  pose proof (Nat.mod_upper_bound k 6) as Hc.
  assert (k `div` 6 < n) as Hi by (apply Nat.Div0.div_lt_upper_bound; lia).
  destruct (read_block_is_Some r (k `div` 6)) as [b Hb]; [lia|].
  pose proof Hb as Hb'. rewrite (Hblocks _ Hi) in Hb'.
  apply read_block_inv in Hb as (H0 & H1 & H2 & H3 & H4 & H5).
  apply read_block_inv in Hb' as (H0' & H1' & H2' & H3' & H4' & H5').
  assert (k = k `div` 6 * 6 + k `mod` 6) as -> by lia.
  destruct (k `mod` 6) as [|[|[|[|[|[|c]]]]]]; [congruence..|lia].
Qed.

(** A block none of whose comparisons fires is left as it is. *)
Lemma collide_block_settled b :
  f32_lt (b0 b) (f32_neg lit_0_2f) = false → f32_lt lit_0_2f (b0 b) = false →
  f32_lt (b1 b) (f32_neg lit_2_0f) = false →
  f32_lt (b2 b) (f32_neg lit_0_2f) = false → f32_lt lit_0_2f (b2 b) = false →
  collide_block b = b.
Proof.
  intros Hx Hx' Hy Hz Hz'. destruct b as [x y z vx vy vz].
  cbn [b0 b1 b2 b3 b4 b5] in *.
  unfold collide_block, clamp_x_low. block_cbn.
  rewrite Hx. unfold clamp_x_high. block_cbn.
  rewrite Hx'. unfold clamp_z_low. block_cbn.
  rewrite Hz. unfold clamp_z_high. block_cbn.
  rewrite Hz'. unfold clamp_y_low. block_cbn.
  by rewrite Hy.
Qed.

Lemma clamp_side_settled x :
  f32_lt (clamp_side x) (f32_neg lit_0_2f) = false ∧
  f32_lt lit_0_2f (clamp_side x) = false.
Proof.
  unfold clamp_side.
  destruct (f32_lt x (f32_neg lit_0_2f)) eqn:Elo; [by vm_compute|].
  destruct (f32_lt lit_0_2f x) eqn:Ehi; [by vm_compute|done].
Qed.

Lemma clamp_floor_settled y : f32_lt (clamp_floor y) (f32_neg lit_2_0f) = false.
Proof.
  unfold clamp_floor.
  destruct (f32_lt y (f32_neg lit_2_0f)) eqn:Elo; [by vm_compute|done].
Qed.

Lemma collide_block_idemp b : collide_block (collide_block b) = collide_block b.
Proof.
  destruct (collide_block_position b) as (Hb0 & Hb1 & Hb2).
  apply collide_block_settled; rewrite ?Hb0, ?Hb1, ?Hb2;
    first [apply clamp_side_settled | apply clamp_floor_settled].
Qed.

(** X7: [checkCollisions] is idempotent: on every vector that has a block
    for each of the particles it returns a vector on which a second call
    changes nothing, NaN slots included. *)
Theorem checkCollisions_idempotent (n : nat) (v : VectorXf) :
  n * 6 ≤ length v →
  ∃ v', checkCollisions n v = Some v' ∧ checkCollisions n v' = Some v'.
Proof.
  intros Hlen.
  destruct (checkCollisions_spec n v Hlen) as (v1 & Hrun1 & Hlen1 & Hb1 & Hr1).
  destruct (checkCollisions_spec n v1) as (v2 & Hrun2 & Hlen2 & Hb2 & Hr2); [lia|].
  exists v1. split; [done|]. rewrite Hrun2. f_equal.
  apply (vec_eq_blocks n); [done|lia| |done].
  intros i Hi. destruct (read_block_is_Some v i) as [b Hb]; [lia|].
  rewrite (Hb2 i _ Hi (Hb1 i b Hi Hb)), (Hb1 i b Hi Hb).
  by rewrite collide_block_idemp.
Qed.

Lemma checkCollisions_idempotent_witness :
  ∃ v', checkCollisions 1 corner_state = Some v' ∧ checkCollisions 1 v' = Some v'.
Proof. apply (checkCollisions_idempotent 1 corner_state). vm_compute. lia. Defined.

(** X8: a vector in which every particle is inside the container (X and Z in
    [-0.2f, 0.2f], Y at least -2.0f) is returned as it is, velocities
    included. *)
Theorem checkCollisions_inside_unchanged (n : nat) (v : VectorXf) :
  n * 6 ≤ length v →
  (∀ i b, i < n → read_block v i = Some b →
     in_side_range (b0 b) = true ∧ in_floor_range (b1 b) = true ∧
     in_side_range (b2 b) = true) →
  checkCollisions n v = Some v.
Proof.
  intros Hlen Hin.
  destruct (checkCollisions_spec n v Hlen) as (v1 & Hrun1 & Hlen1 & Hb1 & Hr1).
  rewrite Hrun1. f_equal. apply (vec_eq_blocks n); [done|lia| |done].
  intros i Hi. destruct (read_block_is_Some v i) as [b Hb]; [lia|].
  rewrite (Hb1 i b Hi Hb), Hb. f_equal.
  destruct (Hin i b Hi Hb) as (Hx & Hy & Hz). by apply collide_block_inside.
Qed.

Lemma checkCollisions_inside_unchanged_witness :
  checkCollisions 1 [f32_zero; f32_zero; lit_0_1f; f32_one; f32_neg f32_one; f32_one]
    = Some [f32_zero; f32_zero; lit_0_1f; f32_one; f32_neg f32_one; f32_one].
Proof.
  apply (checkCollisions_inside_unchanged 1); [vm_compute; lia|].
  intros i b Hi Hb. destruct i as [|i]; [|lia].
  vm_compute in Hb. injection Hb as <-. by vm_compute.
Defined.

(** A float below zero is not below zero once negated, and the like. *)
Lemma f32_neg_not_lt_zero v :
  f32_lt v (f32_of_Z 0) = true → f32_lt (f32_neg v) (f32_of_Z 0) = false.
Proof. by destruct v as [[]|[]| |[] m e]. Qed.

Lemma f32_neg_not_gt_zero v :
  f32_lt (f32_of_Z 0) v = true → f32_lt (f32_of_Z 0) (f32_neg v) = false.
Proof. by destruct v as [[]|[]| |[] m e]. Qed.

(** Nothing is below the low wall and beyond the high wall at once. *)
Lemma f32_low_not_high x :
  f32_lt x (f32_neg lit_0_2f) = true → f32_lt lit_0_2f x = false.
Proof. by destruct x as [[]|[]| |[] m e]. Qed.

(** X9: after [checkCollisions], a particle that was beyond an X wall or
    below the floor sits on that wall or floor and does not move further
    outwards on that axis: its X velocity is not negative at the low wall
    and not positive at the high wall, its Y velocity is not negative on the
    floor; and a particle within the X bounds, or at or above the floor,
    keeps its X velocity, or its Y velocity. *)
Theorem checkCollisions_reflects_x_y (n : nat) (v : VectorXf) :
  n * 6 ≤ length v →
  ∃ v', checkCollisions n v = Some v' ∧
    ∀ i b, i < n → read_block v i = Some b →
      ∃ b', read_block v' i = Some b' ∧
        (f32_lt (b0 b) (f32_neg lit_0_2f) = true →
           b0 b' = f32_neg lit_0_2f ∧ f32_lt (b3 b') (f32_of_Z 0) = false ∧
           (b3 b' = b3 b ∨ b3 b' = f32_neg (b3 b))) ∧
        (f32_lt lit_0_2f (b0 b) = true →
           b0 b' = lit_0_2f ∧ f32_lt (f32_of_Z 0) (b3 b') = false ∧
           (b3 b' = b3 b ∨ b3 b' = f32_neg (b3 b))) ∧
        (f32_lt (b1 b) (f32_neg lit_2_0f) = true →
           b1 b' = f32_neg lit_2_0f ∧ f32_lt (b4 b') (f32_of_Z 0) = false ∧
           (b4 b' = b4 b ∨ b4 b' = f32_neg (b4 b))) ∧
        (f32_lt (b0 b) (f32_neg lit_0_2f) = false → f32_lt lit_0_2f (b0 b) = false →
           b3 b' = b3 b) ∧
        (f32_lt (b1 b) (f32_neg lit_2_0f) = false → b4 b' = b4 b).
Proof.
  intros Hlen.
  destruct (checkCollisions_spec n v Hlen) as (v' & Hrun & _ & Hblocks & _).
  exists v'. split; [done|]. intros i b Hi Hb.
  exists (collide_block b). split; [by apply Hblocks|].
  destruct (collide_block_position b) as (Hp0 & Hp1 & _).
  destruct (collide_block_velocity b) as (Hv3 & Hv3' & Hv4 & _).
  rewrite Hp0, Hp1, Hv3, Hv3', Hv4. unfold clamp_side, clamp_floor.
  split_and!.
  - intros ->. split; [done|].
    destruct (f32_lt (b3 b) (f32_of_Z 0)) eqn:Hvel;
      [split; [by apply f32_neg_not_lt_zero|by right]|split; [done|by left]].
  - intros Hhi.
    destruct (f32_lt (b0 b) (f32_neg lit_0_2f)) eqn:Hlo.
    { apply f32_low_not_high in Hlo. congruence. }
    rewrite Hhi. split; [done|].
    destruct (f32_lt (f32_of_Z 0) (b3 b)) eqn:Hvel;
      [split; [by apply f32_neg_not_gt_zero|by right]|split; [done|by left]].
  - intros ->. split; [done|].
    destruct (f32_lt (b4 b) (f32_of_Z 0)) eqn:Hvel;
      [split; [by apply f32_neg_not_lt_zero|by right]|split; [done|by left]].
  - by intros -> ->.
  - by intros ->.
Qed.

Lemma checkCollisions_reflects_x_y_witness :
  ∃ v', checkCollisions 1 corner_state = Some v' ∧ length v' = 6.
Proof.
  destruct (checkCollisions_reflects_x_y 1 corner_state) as (v' & Hrun & _).
  - vm_compute. lia.
  - exists v'. split; [exact Hrun|].
    vm_compute in Hrun. injection Hrun as <-. reflexivity.
Defined.

(** * Further properties of the step *)

Section StepMore.
Context {env : Collaborators} {solver : Solver}.
Hypothesis others_keep : other_forces_keep_kinematics.
Hypothesis solver_ok : solver_contract.

Lemma solver_trace_dt s s' : solver_trace s s' → dt s' = dt s.
Proof.
  induction 1 as [s|s src t s1 s2 Hset _ IH|s dst s1 s2 Hderiv _ IH]; [done|..].
  - rewrite IH. by eapply setState2_dt.
  - rewrite IH. by destruct (derivEval_kinematics others_keep _ _ _ Hderiv)
      as (_ & _ & _ & ? & _).
Qed.

Lemma trials_anchored_dt s s1 before xa xb :
  step_trials s = Some (s1, before, xa, xb) → anchored s s1 ∧ dt s1 = dt s.
Proof.
  intros (sa & sb & sc & _ & Hsa & _ & Hsb & Hsc & Hs1 & _)%step_trials_inv.
  split.
  - eapply anchored_trans; [by eapply solver_trace_anchored, solver_ok|].
    eapply anchored_trans; [by eapply immovable_kept_anchored, setState2_kept|].
    eapply anchored_trans; by eapply solver_trace_anchored, solver_ok.
  - rewrite (solver_trace_dt _ _ (solver_ok _ _ _ Hs1)).
    rewrite (solver_trace_dt _ _ (solver_ok _ _ _ Hsc)).
    rewrite (setState2_dt _ _ _ _ Hsb).
    apply (solver_trace_dt _ _ (solver_ok _ _ _ Hsa)).
Qed.

(** X10: for a Solver that changes the System only through [setState]
    and [derivEval], and Force subclasses outside the sources whose [apply]
    writes nothing but force accumulators, densities, pressures and masses
    (it leaves the particle vector, the force list, the clock, [dt], the set
    of particle objects and every position, velocity and movable flag
    unchanged), a step of either kind that returns has kept the particle
    vector, and every immovable particle has the position and the velocity
    it had before the step; no particle has changed its movable flag. *)
Theorem step_keeps_immovable (adaptive : bool) (s s' : System) :
  step adaptive s = Some s' →
  particles s' = particles s ∧
  ∀ a p, heap s !! a = Some p →
    ∃ p', heap s' !! a = Some p' ∧ movable p' = movable p ∧
          (movable p = false → position p' = position p ∧ velocity p' = velocity p).
Proof.
  intros Hstep. change (anchored s s'). revert Hstep. unfold step.
  destruct adaptive; simpl.
  - unfold step_adaptive_prefix.
    destruct (step_trials s) as [[[[s1 before] xa] xb]|] eqn:Htrials; simpl; [|done].
    destruct (local_error xa xb) as [err|]; simpl; [|done].
    destruct (setState (rescale_dt err s1) before) as [s2|] eqn:Hset; simpl; [|done].
    intros Hfinal.
    destruct (trials_anchored_dt _ _ _ _ _ Htrials) as [Hanch _].
    destruct (rescale_dt_heap err s1) as [Hheap Hps].
    eapply anchored_trans; [|by eapply solver_trace_anchored, solver_ok].
    eapply anchored_trans; [|by eapply immovable_kept_anchored, setState2_kept].
    destruct Hanch as [Hps1 Hk]. split; [congruence|]. by rewrite Hheap.
  - intros Hfinal. by eapply solver_trace_anchored, solver_ok.
Qed.

(** X11: for a Solver that changes the System only through [setState]
    and [derivEval], and Force subclasses outside the sources whose [apply]
    writes nothing but force accumulators, densities, pressures and masses
    (it leaves the particle vector, the force list, the clock, [dt], the set
    of particle objects and every position, velocity and movable flag
    unchanged), a fixed step leaves [dt] as it was, and an adaptive step
    leaves it either as it was or multiplied by [pow(0.001f / err, .5f)],
    where [err] is the local error of the two trial states and the factor is
    applied exactly when [err > 0]. *)
Theorem step_dt (adaptive : bool) (s s' : System) :
  step adaptive s = Some s' →
  if adaptive then
    ∃ s1 before xa xb err,
      step_trials s = Some (s1, before, xa, xb) ∧ local_error xa xb = Some err ∧
      dt s' = (if f32_lt (f32_of_Z 0) err
               then f32_mul (dt s) (powf (f32_div lit_0_001f err) lit_0_5f)
               else dt s)
  else dt s' = dt s.
Proof.
  unfold step. destruct adaptive; simpl.
  - unfold step_adaptive_prefix.
    destruct (step_trials s) as [[[[s1 before] xa] xb]|] eqn:Htrials; simpl; [|done].
    destruct (local_error xa xb) as [err|] eqn:Herr; simpl; [|done].
    destruct (setState (rescale_dt err s1) before) as [s2|] eqn:Hset; simpl; [|done].
    intros Hfinal. exists s1, before, xa, xb, err. split_and!; [done..|].
    destruct (trials_anchored_dt _ _ _ _ _ Htrials) as [_ Hdt1].
    rewrite (solver_trace_dt _ _ (solver_ok _ _ _ Hfinal)).
    rewrite (setState2_dt _ _ _ _ Hset). unfold rescale_dt.
    destruct (f32_lt (f32_of_Z 0) err); simpl; by rewrite Hdt1.
  - intros Hfinal. apply (solver_trace_dt _ _ (solver_ok _ _ _ Hfinal)).
Qed.

End StepMore.

Lemma step_keeps_immovable_witness :
  ∃ s', @step scene (euler scene) true falling_system = Some s' ∧
        particles s' = particles falling_system.
Proof.
  run_as s' (@step scene (euler scene) true falling_system).
  assert (@step scene (euler scene) true falling_system = Some s')
    as Hrun by (vm_compute; reflexivity).
  exists s'. split; [exact Hrun|].
  exact (proj1 (@step_keeps_immovable scene (euler scene) gravity_keeps_kinematics
                  (euler_contract scene) true falling_system s' Hrun)).
Defined.

Lemma step_dt_witness :
  ∃ s', @step scene (euler scene) false falling_system = Some s' ∧
        dt s' = dt falling_system.
Proof.
  run_as s' (@step scene (euler scene) false falling_system).
  assert (@step scene (euler scene) false falling_system = Some s')
    as Hrun by (vm_compute; reflexivity).
  exists s'. split; [exact Hrun|].
  exact (@step_dt scene (euler scene) gravity_keeps_kinematics
           (euler_contract scene) false falling_system s' Hrun).
Defined.

(** * Registration and teardown *)

Lemma foldl_addParticle {ft : ForceTargets} (l : list nat) (s : System) :
  particles (foldl addParticle s l) = particles s ++ l ∧
  heap (foldl addParticle s l) = heap s ∧
  time (foldl addParticle s l) = time s ∧ dt (foldl addParticle s l) = dt s.
Proof.
  revert s. induction l as [|a l IH]; intros s; simpl.
  - by rewrite app_nil_r.
  - destruct (IH (addParticle s a)) as (-> & -> & -> & ->). simpl.
    by rewrite <- app_assoc.
Qed.

(** X12: [free] followed by [addParticle] of the particles that were listed,
    in the order in which they were listed, gives a System with the same
    particle vector, particle objects, clock, [dt] and state vector as
    before, and with no force: [free] destroys no particle object and drops
    every registered force. *)
Theorem free_addParticle_roundtrip {ft : ForceTargets} (s : System) :
  let s' := foldl addParticle (free s) (particles s) in
  particles s' = particles s ∧ heap s' = heap s ∧
  time s' = time s ∧ dt s' = dt s ∧ forces s' = [] ∧
  getState s' = getState s.
Proof.
  intros s'. destruct (foldl_addParticle (particles s) (free s)) as (Hps & Hh & Ht & Hdt).
  fold s' in Hps, Hh, Ht, Hdt. simpl in *.
  assert (forces s' = []) as Hfs.
  { unfold s'. generalize (particles s) as l.
    assert (∀ l s0, forces s0 = [] → forces (foldl addParticle s0 l) = []) as Hgen.
    { induction l as [|a l IH]; intros s0 Hs0; simpl; [done|].
      apply IH. simpl. by rewrite Hs0. }
    intros l. by apply Hgen. }
  split_and!; [done..|].
  unfold getState, getDim, for_range. rewrite Hps. apply for_each_ext.
  intros i r. unfold getState_body, particle_at, load. by rewrite Hps, Hh.
Qed.

Lemma read_block_app_l (r blk : VectorXf) i :
  i * 6 + 5 < length r → read_block (r ++ blk) i = read_block r i.
Proof.
  intros Hi. apply read_block_ext. intros k Hk. apply lookup_app_l. lia.
Qed.

Lemma read_block_app_r (r : VectorXf) b n :
  length r = n * 6 → read_block (r ++ block_slots b) n = Some b.
Proof.
  intros Hlen. destruct b as [x0 x1 x2 x3 x4 x5].
  apply read_block_intro; rewrite lookup_app_r by lia; rewrite Hlen.
  - by replace (n * 6 + 0 - n * 6) with 0 by lia.
  - by replace (n * 6 + 1 - n * 6) with 1 by lia.
  - by replace (n * 6 + 2 - n * 6) with 2 by lia.
  - by replace (n * 6 + 3 - n * 6) with 3 by lia.
  - by replace (n * 6 + 4 - n * 6) with 4 by lia.
  - by replace (n * 6 + 5 - n * 6) with 5 by lia.
Qed.

(** X13: adding a particle whose object is on the heap keeps the pointers
    valid, raises the dimension by 6, and appends the six slots of the new
    particle to the state vector: the slots of the particles that were
    already there keep their offsets and values. *)
Theorem addParticle_appends {ft : ForceTargets} (s : System) (a : nat) (p : Particle) :
  valid_particles s → heap s !! a = Some p →
  valid_particles (addParticle s a) ∧
  getDim (addParticle s a) = getDim s + 6 ∧
  ∃ r, getState s = Some r ∧
       getState (addParticle s a) = Some (r ++ block_slots (state_block p)).
Proof.
  intros Hv Hp.
  assert (valid_particles (addParticle s a)) as Hv'.
  { unfold valid_particles. simpl. apply Forall_app. split; [done|].
    constructor; [by eexists|constructor]. }
  split; [done|]. split.
  { unfold getDim. simpl. rewrite length_app. simpl. lia. }
  destruct (getState_spec s Hv) as (r & Hr & Hlen & Hblocks).
  destruct (getState_spec _ Hv') as (r' & Hr' & Hlen' & Hblocks').
  simpl in Hlen'. rewrite length_app in Hlen'. simpl in Hlen'.
  exists r. split; [done|]. rewrite Hr'. f_equal.
  apply (blocks_eq (length (particles s) + 1)); [done| |].
  { rewrite length_app. simpl. lia. }
  intros i Hi. destruct (decide (i < length (particles s))) as [Hlt|Hge].
  - rewrite read_block_app_l by lia.
    destruct (lookup_lt_is_Some_2 (particles s) i Hlt) as [ai Hai].
    destruct (valid_particles_lookup _ _ _ Hv Hai) as [pi Hpi].
    rewrite (Hblocks i ai pi) by by apply particle_at_Some.
    apply (Hblocks' i ai). apply particle_at_Some. simpl.
    by rewrite lookup_app_l.
  - assert (i = length (particles s)) as -> by lia.
    rewrite read_block_app_r by lia.
    apply (Hblocks' _ a). apply particle_at_Some. simpl.
    rewrite lookup_app_r by lia. by rewrite Nat.sub_diag.
Qed.

Lemma addParticle_appends_witness :
  valid_particles drifting_system ∧
  ∃ r, getState drifting_system = Some r ∧
       length <$> getState (@addParticle append_target drifting_system 1)
         = Some (length r + 6).
Proof.
  assert (valid_particles drifting_system) as Hv by scene_valid.
  split; [exact Hv|].
  destruct (@addParticle_appends append_target drifting_system 1
              (particle_at_rest (v3_of_Z 1 0 0) (v3_of_Z 1 0 0) true) Hv)
    as (_ & _ & r & Hr & Hr'); [vm_compute; reflexivity|].
  exists r. split; [exact Hr|].
  rewrite Hr'. simpl. rewrite length_app. reflexivity.
Defined.

(** * Collisions fed back into the System *)

(** X14: on a System with valid pointers in which no particle is listed
    twice, writing the result of [checkCollisions] back with [setState]
    puts every movable particle whose proposed position has no NaN inside
    the container: X and Z in [-0.2f, 0.2f] and Y at least -2.0f. *)
Theorem setState_checkCollisions_inside (s : System) (src : VectorXf) (t : float) :
  valid_particles s → NoDup (particles s) →
  length src = length (particles s) * 6 →
  ∃ v s', checkCollisions (length (particles s)) src = Some v ∧
          setState2 s v t = Some s' ∧
    ∀ i a p b, particles s !! i = Some a → heap s !! a = Some p →
      movable p = true → read_block src i = Some b → position_ordered b →
      ∃ p', heap s' !! a = Some p' ∧
            in_side_range (c0 (position p')) = true ∧
            in_floor_range (c1 (position p')) = true ∧
            in_side_range (c2 (position p')) = true.
Proof.
  intros Hv Hnd Hlen.
  destruct (checkCollisions_spec (length (particles s)) src)
    as (v & Hrun & Hlenv & Hblocks & _); [lia|].
  assert (∀ i a, particles s !! i = Some a →
            read_block v i = Some (block_of v (particles s) a)) as Hsrc.
  { intros i a Ha. rewrite (block_of_lookup v _ i a Hnd Ha).
    destruct (read_block_is_Some v i) as [b ->]; [|done].
    apply lookup_lt_Some in Ha. lia. }
  destruct (setState2_written s v t _ Hv Hsrc)
    as (s' & Hset & _ & _ & _ & _ & Hheap).
  exists v, s'. split_and!; [done..|].
  intros i a p b Ha Hp Hm Hb (Hx & Hy & Hz).
  eexists. rewrite Hheap, Hp. split; [done|].
  unfold written.
  rewrite Hm, (bool_decide_eq_true_2 _ (list_elem_of_lookup_2 _ _ _ Ha)). simpl.
  pose proof (Hsrc i a Ha) as Hvb.
  rewrite (Hblocks i b (lookup_lt_Some _ _ _ Ha) Hb) in Hvb.
  injection Hvb as <-.
  destruct (collide_block_position b) as (-> & -> & ->).
  split_and!;
    [by apply clamp_side_range|by apply clamp_floor_range|by apply clamp_side_range].
Qed.

Lemma setState_checkCollisions_inside_witness :
  valid_particles shear_system ∧ NoDup (particles shear_system) ∧
  ∃ v s', checkCollisions 3 (replicate 18 f32_one) = Some v ∧
          setState2 shear_system v f32_zero = Some s'.
Proof.
  assert (valid_particles shear_system) as Hv by scene_valid.
  assert (NoDup (particles shear_system)) as Hnd
    by (vm_compute; by apply NoDup_ListNoDup; repeat constructor; simpl; lia).
  split; [exact Hv|]. split; [exact Hnd|].
  destruct (setState_checkCollisions_inside shear_system (replicate 18 f32_one)
              f32_zero Hv Hnd eq_refl) as (v & s' & Hrun & Hset & _).
  exists v, s'. split; [exact Hrun|exact Hset].
Defined.
